(** * Verification of [tools/generate_readme.py]

    A shallow embedding of the profile-README generator: the language
    aggregator, the percentage/bar renderer, the recent-activity fetcher,
    the document builder and the animated-image URL resolver, followed by
    the properties its specification states about them.

    Conventions of the embedding.
    - A Python [str] is a list of Unicode code points ([pystr]); [len] is
      [length].  ASCII literals are written [lit "..."]; the non-ASCII
      characters of the script are named by code point.
    - The Python values modelled are [None], booleans, integers and
      strings ([pyval]; [None] is [VNone]).  A YAML document can hold
      more (floats, dates, [bytes], sequences, mappings); a configuration
      with such an entry is outside the model, and a statement that
      depends on the kind of a value names the kinds it is about.
    - A [dict] is an association list in insertion order.  A dictionary
      proper has no repeated key, which theorems about one state as
      [NoDup (keys d)].
    - Code that can raise returns a [result]; [try/except] is a [match].
    - Byte counts are natural numbers ([N]).
    - A [float] is the rational it denotes; every operation rounds to the
      nearest binary64 number, ties to even ([Float.rn]).
    - The network ([gh_get]) and the file system ([os.path.exists]) are
      parameters of the functions that use them. *)

From Stdlib Require Import ZArith NArith QArith Qpower Qabs Qround.
From Stdlib Require Import List Bool Lia Lqa.
From Stdlib Require Import String Ascii DecimalString Permutation Sorted.
From Stdlib Require Import Floats.SpecFloat.
Import ListNotations.

Set Implicit Arguments.

(* ================================================================== *)
(** ** Strings *)

Module PyStr.

Definition char := N.
Definition pystr := list char.

Definition lit (s : string) : pystr :=
  List.map N_of_ascii (list_ascii_of_string s).

Definition nl : pystr := [10%N].          (* the newline character *)
Definition BLOCK_FULL : char := 9608%N.   (* U+2588 FULL BLOCK *)
Definition BLOCK_LIGHT : char := 9617%N.  (* U+2591 LIGHT SHADE *)
Definition EM_DASH : char := 8212%N.      (* U+2014 EM DASH *)
Definition BACKSLASH : char := 92%N.
Definition SLASH : char := 47%N.
Definition SPACE : char := 32%N.
Definition DQUOTE : char := 34%N.

Definition str_eqb (a b : pystr) : bool :=
  if list_eq_dec N.eq_dec a b then true else false.

(** [str.isspace] on one code point (CPython's [_PyUnicode_IsWhitespace]). *)
Definition isspace (c : char) : bool :=
  ((9 <=? c) && (c <=? 13) || (28 <=? c) && (c <=? 32)
   || (c =? 133) || (c =? 160) || (c =? 5760)
   || (8192 <=? c) && (c <=? 8202)
   || (c =? 8232) || (c =? 8233) || (c =? 8239) || (c =? 8287)
   || (c =? 12288))%N.

Fixpoint lstrip (s : pystr) : pystr :=
  match s with
  | c :: s' => if isspace c then lstrip s' else s
  | [] => []
  end.

Definition rstrip (s : pystr) : pystr := rev (lstrip (rev s)).

(** [s.strip()] *)
Definition strip (s : pystr) : pystr := rstrip (lstrip s).

(** [s.replace(old, new)] for a one-character [old]. *)
Definition replace_char (old : char) (new : pystr) (s : pystr) : pystr :=
  flat_map (fun c => if (c =? old)%N then new else [c]) s.

(** [sep.join(parts)] *)
Fixpoint join (sep : pystr) (parts : list pystr) : pystr :=
  match parts with
  | [] => []
  | [p] => p
  | p :: rest => p ++ sep ++ join sep rest
  end.

(** [s or d] on strings. *)
Definition str_or (s d : pystr) : pystr :=
  match s with
  | [] => d
  | _ :: _ => s
  end.

(** [c * n] for a one-character string; a negative count gives the empty
    string. *)
Definition times (c : char) (n : Z) : pystr := repeat c (Z.to_nat n).

(** [str(n)] for a Python [int]. *)
Definition str_of_int (z : Z) : pystr :=
  lit (NilZero.string_of_int (Z.to_int z)).

(** No string occurs twice in the list. *)
Fixpoint distinct (l : list pystr) : bool :=
  match l with
  | [] => true
  | s :: l' => negb (existsb (str_eqb s) l') && distinct l'
  end.

End PyStr.
Import PyStr.

(* ================================================================== *)
(** ** Values, dictionaries, exceptions *)

Inductive pyval :=
| VNone
| VBool (b : bool)
| VInt (z : Z)
| VStr (s : pystr).

(** [bool(v)] *)
Definition truthy (v : pyval) : bool :=
  match v with
  | VNone => false
  | VBool b => b
  | VInt z => negb (z =? 0)%Z
  | VStr s => match s with [] => false | _ => true end
  end.

(** [str(v)], which is what an f-string field [{v}] inserts. *)
Definition py_str (v : pyval) : pystr :=
  match v with
  | VNone => lit "None"
  | VBool true => lit "True"
  | VBool false => lit "False"
  | VInt z => str_of_int z
  | VStr s => s
  end.

(** [a == b] between scalars; [True == 1] and [False == 0] as in Python. *)
Definition py_eqb (a b : pyval) : bool :=
  match a, b with
  | VNone, VNone => true
  | VStr s, VStr t => str_eqb s t
  | VInt x, VInt y => (x =? y)%Z
  | VBool x, VBool y => Bool.eqb x y
  | VBool x, VInt y | VInt y, VBool x => ((if x then 1 else 0) =? y)%Z
  | _, _ => false
  end.

Definition is_str (v : pyval) : bool :=
  match v with VStr _ => true | _ => false end.

Definition as_str (v : pyval) : pystr :=
  match v with VStr s => s | _ => [] end.

Definition dict (V : Type) := list (pystr * V).

Section Dict.
Context {V : Type}.

(** [d.get(k)] as an option: [None] when the key is missing. *)
Fixpoint lookup (d : dict V) (k : pystr) : option V :=
  match d with
  | [] => None
  | (k', v) :: d' => if str_eqb k' k then Some v else lookup d' k
  end.

(** [d.get(k, default)] *)
Definition get_or (d : dict V) (k : pystr) (default : V) : V :=
  match lookup d k with Some v => v | None => default end.

(** [d[k] = v]: an existing key keeps its position, a new one goes last. *)
Fixpoint set_item (d : dict V) (k : pystr) (v : V) : dict V :=
  match d with
  | [] => [(k, v)]
  | (k', v') :: d' =>
      if str_eqb k' k then (k', v) :: d' else (k', v') :: set_item d' k v
  end.

(** [dict(pairs)] / [OrderedDict(pairs)] *)
Definition of_pairs (pairs : list (pystr * V)) : dict V :=
  fold_left (fun d kv => set_item d (fst kv) (snd kv)) pairs [].

Definition keys (d : dict V) : list pystr := List.map fst d.
Definition values (d : dict V) : list V := List.map snd d.
End Dict.

(** [d.get(k)] on a dictionary of scalars: [None] for a missing key. *)
Definition get (d : dict pyval) (k : pystr) : pyval := get_or d k VNone.

(** The entry under [k] is missing or holds a string. *)
Definition str_or_absent (cfg : dict pyval) (k : pystr) : bool :=
  match lookup cfg k with
  | None => true
  | Some v => is_str v
  end.

(** The entry under [k] is missing, falsy or holds a string. *)
Definition str_or_falsy (cfg : dict pyval) (k : pystr) : bool :=
  match lookup cfg k with
  | None => true
  | Some v => is_str v || negb (truthy v)
  end.

Inductive exn :=
| AttributeError      (* [.strip()] on [None], a bool or an int;
                         [.get] on a configuration that is no mapping *)
| TypeError           (* [str.join] given an item that is not a [str] *)
| ZeroDivisionError
| RequestError.       (* whatever [requests] raises inside [gh_get] *)

Inductive result (A : Type) :=
| Ok (a : A)
| Raise (e : exn).
Arguments Raise {A} e.

Definition bind {A B} (r : result A) (k : A -> result B) : result B :=
  match r with
  | Ok a => k a
  | Raise e => Raise e
  end.

Notation "x <- c1 ;; c2" := (bind c1 (fun x => c2))
  (at level 61, c1 at next level, right associativity).

Fixpoint map_result {A B} (f : A -> result B) (l : list A) : result (list B) :=
  match l with
  | [] => Ok []
  | x :: l' => y <- f x ;; ys <- map_result f l' ;; Ok (y :: ys)
  end.

(** [v.strip()] for the values modelled: a string is stripped; [None],
    a bool and an int have no [strip] attribute. *)
Definition py_strip (v : pyval) : result pystr :=
  match v with
  | VStr s => Ok (strip s)
  | _ => Raise AttributeError
  end.

(** The values without a [strip] method: [None], booleans and integers. *)
Definition lacks_strip (v : pyval) : bool :=
  match v with
  | VNone | VBool _ | VInt _ => true
  | VStr _ => false
  end.

(** [sep.join(items)] on a list whose items may fail to be strings. *)
Fixpoint all_str (items : list pyval) : result (list pystr) :=
  match items with
  | [] => Ok []
  | VStr s :: rest => ss <- all_str rest ;; Ok (s :: ss)
  | _ :: _ => Raise TypeError
  end.

Definition py_join (sep : pystr) (items : list pyval) : result pystr :=
  ss <- all_str items ;; Ok (join sep ss).

(* ================================================================== *)
(** ** Floating point

    The renderer only ever holds finite floats (shares of a total, between
    0 and 100), so a float is modelled by the rational it denotes.  [rn] is
    IEEE 754 round-to-nearest, ties-to-even, onto the binary64 grid: 53
    significant bits, least exponent -1074.  The upper end of the range
    (overflow to infinity) is never reached here and is not modelled. *)

Module Float.

Local Open Scope Q_scope.

Definition two_pow (e : Z) : Q := 2 ^ e.

(** [floor (log2 x)] for [x > 0]. *)
Definition floor_log2 (x : Q) : Z :=
  let k := (Z.log2 (Qnum x) - Z.log2 (Zpos (Qden x)))%Z in
  if Qle_bool (two_pow k) x then k else (k - 1)%Z.

(** Nearest integer, ties to the even one. *)
Definition round_half_even (x : Q) : Z :=
  let f := Qfloor x in
  match ((x - inject_Z f) ?= (1 # 2))%Q with
  | Lt => f
  | Gt => (f + 1)%Z
  | Eq => if Z.even f then f else (f + 1)%Z
  end.

(** Exponent of the unit in the last place of the binade of [x]. *)
Definition ulp_exp (x : Q) : Z := Z.max (floor_log2 x - 52) (-1074).

Definition rn_pos (x : Q) : Q :=
  let e := ulp_exp x in
  inject_Z (round_half_even (x / two_pow e)) * two_pow e.

Definition rn (x : Q) : Q :=
  match x ?= 0 with
  | Eq => 0
  | Gt => rn_pos x
  | Lt => - rn_pos (- x)
  end.

(** [a / b] on two [int]s: the correctly rounded quotient. *)
Definition truediv (a b : N) : result Q :=
  if (b =? 0)%N then Raise ZeroDivisionError
  else Ok (rn (inject_Z (Z.of_N a) / inject_Z (Z.of_N b))).

(** [x * y] and [x / y] on floats ([y] an exactly representable non-zero
    constant at every use). *)
Definition mul (x y : Q) : Q := rn (x * y).
Definition div (x y : Q) : Q := rn (x / y).

(** [round(x)] *)
Definition py_round (x : Q) : Z := round_half_even x.

(** The number of tenths printed by [f"{x:.1f}"]: the exact value of the
    float, correctly rounded to one decimal, ties to even. *)
Definition tenths (x : Q) : Z := round_half_even (x * 10)%Q.

(** The number that [f"{x:.1f}"] prints. *)
Definition rendered (x : Q) : Q := inject_Z (tenths x) / 10.

(** [f"{x:.1f}"] for [x >= 0]. *)
Definition format_1f (x : Q) : pystr :=
  let t := tenths x in
  (str_of_int (t / 10) ++ lit "." ++ str_of_int (t mod 10))%Z.

(** The rational denoted by a binary64 datum of the Standard Library's
    specification of IEEE 754, used to cross-check [rn]. *)
Definition of_spec (f : spec_float) : Q :=
  match f with
  | S754_finite s m e =>
      (if s then -1 else 1) * inject_Z (Zpos m) * two_pow e
  | _ => 0
  end.

Definition b64 (n : Z) : spec_float := binary_normalize 53 1024 n 0 false.
Definition b64_div (x y : spec_float) := SFdiv 53 1024 x y.
Definition b64_mul (x y : spec_float) := SFmul 53 1024 x y.

End Float.

(* ================================================================== *)
(** ** The percentage/bar renderer *)

(** [progress_bar(percent, length=20)] *)
Definition progress_bar (percent : Q) (length : Z) : pystr :=
  let filled := Float.py_round
                  (Float.mul (Float.div percent 100)
                             (Float.rn (inject_Z length))) in
  let empty := (length - filled)%Z in
  times BLOCK_FULL filled ++ times BLOCK_LIGHT empty.

(** The [filled] of [progress_bar(percent, 20)]. *)
Definition filled_of (percent : Q) : Z :=
  Float.py_round
    (Float.mul (Float.div percent 100) (Float.rn (inject_Z 20))).

(** What rounding to the nearest integer, ties to the even one, asks of
    the integer [k] chosen for the number [x]; said without reference to
    the rounding function. *)
Definition nearest_even (k : Z) (x : Q) : Prop :=
  Qabs (inject_Z k - x) <= 1 # 2
  /\ (Qabs (inject_Z k - x) == 1 # 2 -> Z.even k = true).

Definition Nsum (l : list N) : N := fold_right N.add 0%N l.
Definition Qsum (l : list Q) : Q := fold_right Qplus 0 l.

(** [sum(lang_totals.values())] *)
Definition sum_values (d : dict N) : N := fold_left N.add (values d) 0%N.

(** [sorted(items, key=lambda kv: kv[1], reverse=True)].  Python's sort is
    stable, also under [reverse=True]; a stable sort has one possible
    result, computed here by insertion. *)
Fixpoint insert_desc (x : pystr * N) (l : list (pystr * N)) :=
  match l with
  | [] => [x]
  | y :: l' => if (snd x <? snd y)%N then y :: insert_desc x l' else x :: l
  end.

Fixpoint sorted_desc (items : list (pystr * N)) : list (pystr * N) :=
  match items with
  | [] => []
  | x :: rest => insert_desc x (sorted_desc rest)
  end.

(** The order of the rows: no later row has more bytes. *)
Definition by_bytes_desc (a b : pystr * N) : Prop := (snd b <= snd a)%N.

(** The items with exactly [n] bytes. *)
Definition has_bytes (n : N) (kv : pystr * N) : bool := (snd kv =? n)%N.

(** [pct = (b / total_bytes) * 100] *)
Definition percent (b total_bytes : N) : result Q :=
  q <- Float.truediv b total_bytes ;; Ok (Float.mul q 100).

(** The exact share [b / total] and the float that [percent] returns for a
    non-zero total. *)
Definition share (b total : N) : Q :=
  inject_Z (Z.of_N b) / inject_Z (Z.of_N total).

Definition pct_of (b total : N) : Q :=
  Float.mul (Float.rn (share b total)) 100.

(** The text of one table row, given its language and percentage. *)
Definition row_text (lang : pystr) (pct : Q) : pystr :=
  let pct_str := Float.format_1f pct ++ lit "%" in
  let bar := progress_bar pct 20 in
  lit "| " ++ lang ++ lit " | " ++ pct_str ++ lit " | " ++ bar ++ lit " |".

(** The body of the [for lang, b in ordered.items()] loop. *)
Definition language_row (total_bytes : N) (kv : pystr * N) : result pystr :=
  pct <- percent (snd kv) total_bytes ;; Ok (row_text (fst kv) pct).

Definition TABLE_HEAD : list pystr :=
  [lit "| Language | % | Progress |"; lit "|---:|:---:|:---|"].

Definition NO_LANGUAGE_DATA : pystr := lit "No language data available." ++ nl.

(** [OrderedDict(sorted(lang_totals.items(), ...))] *)
Definition ordered_items (lang_totals : dict N) : dict N :=
  of_pairs (sorted_desc lang_totals).

Definition build_language_section (lang_totals : dict N) : result pystr :=
  let total_bytes := sum_values lang_totals in
  if (total_bytes =? 0)%N then Ok NO_LANGUAGE_DATA
  else
    let ordered := ordered_items lang_totals in
    rows <- map_result (language_row total_bytes) ordered ;;
    Ok (join nl (TABLE_HEAD ++ rows) ++ nl).

(** The percentages of the rows, in row order: the [pct] of each pass of
    the loop. *)
Definition row_percents (lang_totals : dict N) : result (list Q) :=
  map_result (fun kv => percent (snd kv) (sum_values lang_totals))
             (ordered_items lang_totals).

(** The same two floats computed with the Standard Library's IEEE 754
    operations: [pct] and the argument of [round] in [progress_bar]. *)
Definition pct_b64 (b total : N) : spec_float :=
  Float.b64_mul (Float.b64_div (Float.b64 (Z.of_N b)) (Float.b64 (Z.of_N total)))
                (Float.b64 100).

Definition bar_arg_b64 (b total : N) : spec_float :=
  Float.b64_mul (Float.b64_div (pct_b64 b total) (Float.b64 100))
                (Float.b64 20).

Definition agrees_with_b64 (b total : N) : bool :=
  Qeq_bool (pct_of b total) (Float.of_spec (pct_b64 b total))
  && Qeq_bool (Float.mul (Float.div (pct_of b total) 100)
                         (Float.rn (inject_Z 20)))
              (Float.of_spec (bar_arg_b64 b total)).

(** All pairs [(b, total)] with [b <= total] and [1 <= total <= n]. *)
Definition shares_up_to (n : nat) : list (N * N) :=
  flat_map (fun t => List.map (fun b => (N.of_nat b, N.of_nat t)) (seq 0 (S t)))
           (seq 1 n).

(* ================================================================== *)
(** ** The language aggregator *)

(** A repository record is the JSON object of the listing, read with
    [r.get(...)]; the languages endpoint answers with an object from
    language names to byte counts. *)
Definition repo := dict pyval.

(** [totals[lang] += bytes_count] for every item of one answer;
    [totals] is a [defaultdict(int)]. *)
Definition add_languages (totals data : dict N) : dict N :=
  fold_left
    (fun t kv => set_item t (fst kv) (get_or t (fst kv) 0 + snd kv)%N)
    data totals.

(** The bytes an answer lists for one language. *)
Definition bytes_of (data : dict N) (lang : pystr) : N :=
  Nsum (List.map (fun kv => if str_eqb (fst kv) lang then snd kv else 0%N) data).

Section Aggregator.
(** [gh_get(lang_url, token=token)]: the answer of the network, or what it
    raises.  The argument is whatever the record holds under
    ["languages_url"]. *)
Variable gh_get : pyval -> result (dict N).

Fixpoint fetch_languages_loop (repos : list repo) (totals : dict N)
  : dict N :=
  match repos with
  | [] => totals
  | r :: rest =>
      if truthy (get r (lit "fork")) then fetch_languages_loop rest totals
      else
        let lang_url := get r (lit "languages_url") in
        if negb (truthy lang_url) then fetch_languages_loop rest totals
        else
          match gh_get lang_url with
          | Raise _ => fetch_languages_loop rest totals
          | Ok data => fetch_languages_loop rest (add_languages totals data)
          end
  end.

Definition fetch_languages_for_repos (repos : list repo) : dict N :=
  fetch_languages_loop repos [].

(** What one repository adds to the totals: nothing for a fork, for a
    record without a languages reference and for a failed fetch; the
    answer of the endpoint otherwise. *)
Definition contribution (r : repo) : dict N :=
  if truthy (get r (lit "fork")) then []
  else if negb (truthy (get r (lit "languages_url"))) then []
  else match gh_get (get r (lit "languages_url")) with
       | Raise _ => []
       | Ok data => data
       end.
End Aggregator.

(* ================================================================== *)
(** ** The recent-activity fetcher *)

(** One entry of [payload.commits], read with [c.get("sha")] and
    [c.get("message")]. *)
Record commit_entry := { sha : pyval; message : pyval }.

(** One event of the feed: [ev.get("type")],
    [ev.get("repo", {}).get("name")] and
    [ev.get("payload", {}).get("commits", [])]. *)
Record event := {
  ev_type : pyval;
  ev_repo_name : pyval;
  ev_commits : list commit_entry
}.

(** [{"repo": repo_name, "message": msg, "url": url}] *)
Record commit_ref := { cr_repo : pyval; cr_message : pyval; cr_url : pystr }.

Definition commit_url (repo_name sha_ : pyval) : pystr :=
  if truthy sha_ && truthy repo_name
  then lit "https://github.com/" ++ py_str repo_name
         ++ lit "/commit/" ++ py_str sha_
  else [].

Definition make_ref (repo_name : pyval) (c : commit_entry) : commit_ref :=
  {| cr_repo := repo_name;
     cr_message := message c;
     cr_url := commit_url repo_name (sha c) |}.

(** The inner loop.  [inl] is the early [return commits]; [inr] is the list
    carried to the next event. *)
Fixpoint scan_commits (repo_name : pyval) (cs : list commit_entry)
    (commits : list commit_ref) (limit : Z)
  : list commit_ref + list commit_ref :=
  match cs with
  | [] => inr commits
  | c :: cs' =>
      let commits' := commits ++ [make_ref repo_name c] in
      if (Z.of_nat (List.length commits') >=? limit)%Z then inl commits'
      else scan_commits repo_name cs' commits' limit
  end.

(** [ev.get("type") == "PushEvent"] *)
Definition is_push (ev : event) : bool :=
  py_eqb (ev_type ev) (VStr (lit "PushEvent")).

Fixpoint scan_events (events : list event) (commits : list commit_ref)
    (limit : Z) : list commit_ref :=
  match events with
  | [] => commits
  | ev :: rest =>
      if negb (is_push ev) then scan_events rest commits limit
      else
        match scan_commits (ev_repo_name ev) (ev_commits ev) commits limit with
        | inl done => done
        | inr commits' => scan_events rest commits' limit
        end
  end.

(** Every commit of every push event, in feed order. *)
Definition push_commits (events : list event) : list commit_ref :=
  flat_map (fun ev => if is_push ev
                      then List.map (make_ref (ev_repo_name ev)) (ev_commits ev)
                      else []) events.

Definition events_url (username : pyval) : pystr :=
  lit "https://api.github.com/users/" ++ py_str username
    ++ lit "/events/public".

Section Activity.
(** [gh_get(url, token=token)] on the event feed. *)
Variable gh_get : pystr -> result (list event).

Definition fetch_recent_commits (username : pyval) (limit : Z)
  : list commit_ref :=
  match gh_get (events_url username) with
  | Raise _ => []
  | Ok events => scan_events events [] limit
  end.
End Activity.

(* ================================================================== *)
(** ** The document builder *)

Definition make_shield_link (label color logo : pystr) : pystr :=
  let label_enc := replace_char SPACE (lit "%20") label in
  lit "https://img.shields.io/badge/" ++ label_enc ++ lit "-" ++ color
    ++ lit "?style=for-the-badge&logo=" ++ logo ++ lit "&logoColor=white".

Definition NO_COMMITS : pystr :=
  lit "_No public commits found yet " ++ [EM_DASH]
    ++ lit " start committing!_" ++ nl.

Definition FOOTER : list pystr :=
  [lit "---";
   lit "This README is generated automatically. Updates occur daily and whenever this repository receives a push."].

Definition commit_line (c : commit_ref) : pystr :=
  match cr_url c with
  | [] => lit "- " ++ py_str (cr_message c) ++ lit " " ++ [EM_DASH]
            ++ lit " _" ++ py_str (cr_repo c) ++ lit "_"
  | u => lit "- [" ++ py_str (cr_message c) ++ lit "](" ++ u ++ lit ") "
           ++ [EM_DASH] ++ lit " _" ++ py_str (cr_repo c) ++ lit "_"
  end.

Definition title_lines (display_name : pyval) : list pyval :=
  [VStr (lit "# " ++ py_str display_name ++ nl)].

Definition image_lines (gif_url : pyval) : list pyval :=
  if truthy gif_url then
    [VStr (lit "<p align=" ++ [DQUOTE] ++ lit "center" ++ [DQUOTE] ++ lit ">");
     VStr (lit "  <img src=" ++ [DQUOTE] ++ py_str gif_url ++ [DQUOTE]
             ++ lit " alt=" ++ [DQUOTE] ++ lit "Animated coder" ++ [DQUOTE]
             ++ lit " width=" ++ [DQUOTE] ++ lit "320" ++ [DQUOTE] ++ lit "/>");
     VStr (lit "</p>" ++ nl)]
  else [].

Definition bio_lines (bio_code : pyval) : list pyval :=
  if truthy bio_code then
    [VStr (lit "```cpp"); bio_code; VStr (lit "```" ++ nl)]
  else [].

Definition cards_of (cfg stats_img_urls : dict pyval) : list pystr :=
  let stats_card := get stats_img_urls (lit "stats") in
  let top_langs_card := get stats_img_urls (lit "top_langs") in
  let visitor_badge := get cfg (lit "visitor_badge_url") in
  (if truthy stats_card
   then [lit "![GitHub stats](" ++ py_str stats_card ++ lit ")"] else [])
  ++ (if truthy top_langs_card
      then [lit "![Top languages](" ++ py_str top_langs_card ++ lit ")"]
      else [])
  ++ (if truthy visitor_badge
      then [lit "[![Visitors](" ++ py_str visitor_badge
              ++ lit ")](https://github.com/"
              ++ py_str (get cfg (lit "github_username")) ++ lit ")"]
      else []).

Definition badge_lines (cfg stats_img_urls : dict pyval) (linkedin : pystr)
  : list pyval :=
  let cards := cards_of cfg stats_img_urls in
  (match linkedin with
   | [] => []
   | _ => [VStr (lit "[![LinkedIn]("
                   ++ make_shield_link (lit "LinkedIn") (lit "blue")
                        (lit "linkedin")
                   ++ lit ")](" ++ linkedin ++ lit ")  ")]
   end)
  ++ (match cards with
      | [] => []
      | _ => [VStr (join (lit "  " ++ nl) cards ++ nl)]
      end).

Definition language_lines (lang_section_md : pystr) : list pyval :=
  [VStr (lit "## Languages" ++ nl); VStr lang_section_md].

Definition activity_lines (recent_commits : list commit_ref) : list pyval :=
  VStr (lit "## Recent activity" ++ nl)
  :: match recent_commits with
     | [] => [VStr NO_COMMITS]
     | _ => List.map (fun c => VStr (commit_line c)) recent_commits
              ++ [VStr []]
     end.

Definition timestamp_lines (last_updated : pystr) : list pyval :=
  [VStr (lit "_Last updated: " ++ last_updated ++ lit " UTC_" ++ nl)].

Definition build_readme (cfg stats_img_urls : dict pyval)
    (lang_section_md : pystr) (recent_commits : list commit_ref)
    (last_updated : pystr) : result pystr :=
  let display_name :=
    get_or cfg (lit "display_name") (get cfg (lit "github_username")) in
  let bio_code := get_or cfg (lit "bio_code") (VStr []) in
  linkedin <- py_strip (get_or cfg (lit "linkedin_url") (VStr [])) ;;
  let gif_url := get cfg (lit "gif_url") in
  py_join nl
    (title_lines display_name
     ++ image_lines gif_url
     ++ bio_lines bio_code
     ++ badge_lines cfg stats_img_urls linkedin
     ++ language_lines lang_section_md
     ++ activity_lines recent_commits
     ++ timestamp_lines last_updated
     ++ List.map VStr FOOTER).

(** The lines of the document when [linkedin_url] holds a string or is
    missing, in the order [build_readme] appends them. *)
Definition readme_lines (cfg stats_img_urls : dict pyval)
    (lang_section_md : pystr) (recent_commits : list commit_ref)
    (last_updated : pystr) : list pyval :=
  title_lines (get_or cfg (lit "display_name") (get cfg (lit "github_username")))
  ++ image_lines (get cfg (lit "gif_url"))
  ++ bio_lines (get_or cfg (lit "bio_code") (VStr []))
  ++ badge_lines cfg stats_img_urls
       (strip (as_str (get_or cfg (lit "linkedin_url") (VStr []))))
  ++ language_lines lang_section_md
  ++ activity_lines recent_commits
  ++ timestamp_lines last_updated
  ++ List.map VStr FOOTER.

(** The [cfg] that [main] hands to [build_readme]. *)
Definition readme_cfg (cfg : dict pyval) (username : pyval)
    (visitor_badge gif_url : pystr) : dict pyval :=
  [(lit "github_username", username);
   (lit "display_name", get cfg (lit "display_name"));
   (lit "bio_code", get cfg (lit "bio_code"));
   (lit "linkedin_url", get cfg (lit "linkedin_url"));
   (lit "visitor_badge_url", VStr visitor_badge);
   (lit "gif_url", VStr gif_url)].

(** The two stat-card references that [main] builds. *)
Definition stats_img_urls_of (username : pyval) : dict pyval :=
  [(lit "stats",
    VStr (lit "https://github-readme-stats.vercel.app/api?username="
            ++ py_str username
            ++ lit "&show_icons=true&count_private=false&theme=radical"));
   (lit "top_langs",
    VStr (lit "https://github-readme-stats.vercel.app/api/top-langs/?username="
            ++ py_str username
            ++ lit "&layout=compact&langs_count=8&theme=radical"))].

(* ================================================================== *)
(** ** The animated-image URL resolver *)

(** [os.path.join(a, b)] with POSIX separators. *)
Definition starts_with_slash (b : pystr) : bool :=
  match b with
  | c :: _ => (c =? SLASH)%N
  | [] => false
  end.

Definition os_path_join (a b : pystr) : pystr :=
  if starts_with_slash b then b
  else match a with
       | [] => a ++ b
       | _ => if starts_with_slash (rev a) then a ++ b
              else a ++ [SLASH] ++ b
       end.

Definition raw_url (username : pyval) (branch gif_path : pystr) : pystr :=
  lit "https://raw.githubusercontent.com/" ++ py_str username ++ [SLASH]
    ++ py_str username ++ [SLASH] ++ branch ++ [SLASH] ++ gif_path.

Section Resolver.
(** The project root and [os.path.exists]. *)
Variable ROOT : pystr.
Variable os_path_exists : pystr -> bool.

Definition find_gif_url (cfg : dict pyval) (username : pyval)
  : result pystr :=
  external <- py_strip (get_or cfg (lit "external_gif_url") (VStr [])) ;;
  gif_path <- py_strip (get_or cfg (lit "gif_path") (VStr [])) ;;
  branch_ <- py_strip (get_or cfg (lit "branch_name") (VStr (lit "Main"))) ;;
  let branch := str_or branch_ (lit "Main") in
  match external with
  | _ :: _ => Ok external
  | [] =>
      match gif_path with
      | [] => Ok []
      | _ :: _ =>
          let local_path := os_path_join ROOT gif_path in
          if os_path_exists local_path
          then Ok (replace_char BACKSLASH [SLASH] gif_path)
          else Ok (raw_url username branch gif_path)
      end
  end.
End Resolver.

(* ================================================================== *)
(** ** Sample inputs *)

Module Samples.

(** The totals of the specification's worked example. *)
Definition two_langs : dict N := [(lit "A", 75%N); (lit "B", 25%N)].

(** Six languages of one size. *)
Definition six_equal : dict N :=
  [(lit "C", 1%N); (lit "Go", 1%N); (lit "Java", 1%N);
   (lit "Python", 1%N); (lit "Rust", 1%N); (lit "Shell", 1%N)].

(** Two languages tied behind a larger one. *)
Definition tied_langs : dict N :=
  [(lit "A", 25%N); (lit "B", 75%N); (lit "C", 25%N)].

Definition zero_totals : dict N := [(lit "A", 0%N)].

(** Repository records and the answers of the languages endpoint. *)
Definition forked_url : pystr :=
  lit "https://api.github.com/repos/octocat/forked/languages".
Definition own_url : pystr :=
  lit "https://api.github.com/repos/octocat/own/languages".
Definition broken_url : pystr :=
  lit "https://api.github.com/repos/octocat/broken/languages".

Definition fork_repo : repo :=
  [(lit "name", VStr (lit "forked")); (lit "fork", VBool true);
   (lit "languages_url", VStr forked_url)].
Definition own_repo : repo :=
  [(lit "name", VStr (lit "own")); (lit "fork", VBool false);
   (lit "languages_url", VStr own_url)].
Definition broken_repo : repo :=
  [(lit "name", VStr (lit "broken")); (lit "fork", VBool false);
   (lit "languages_url", VStr broken_url)].
Definition bare_repo : repo :=
  [(lit "name", VStr (lit "bare")); (lit "fork", VBool false)].
Definition blank_repo : repo :=
  [(lit "name", VStr (lit "blank")); (lit "fork", VBool false);
   (lit "languages_url", VStr [])].

Definition languages_api (url : pyval) : result (dict N) :=
  if py_eqb url (VStr forked_url) then Ok [(lit "C", 900%N)]
  else if py_eqb url (VStr own_url)
       then Ok [(lit "Python", 120%N); (lit "Shell", 30%N)]
       else Raise RequestError.

(** An endpoint that answers every request, whatever the reference. *)
Definition generous_api (url : pyval) : result (dict N) :=
  Ok [(lit "C", 900%N)].

(** An event feed: three push events of two commits each, with another
    kind of event in between. *)
Definition commit_of (id : string) : commit_entry :=
  {| sha := VStr (lit id); message := VStr (lit "commit " ++ lit id) |}.

Definition push_of (name a b : string) : event :=
  {| ev_type := VStr (lit "PushEvent");
     ev_repo_name := VStr (lit name);
     ev_commits := [commit_of a; commit_of b] |}.

Definition watch_event : event :=
  {| ev_type := VStr (lit "WatchEvent");
     ev_repo_name := VStr (lit "octocat/seen");
     ev_commits := [] |}.

Definition three_pushes : list event :=
  [push_of "octocat/one" "a1" "a2"; watch_event;
   push_of "octocat/two" "b1" "b2"; push_of "octocat/three" "c1" "c2"].

Definition one_push : list event :=
  [{| ev_type := VStr (lit "PushEvent");
      ev_repo_name := VStr (lit "octocat/one");
      ev_commits := [commit_of "a1"] |}].

Definition feed_of (events : list event) (url : pystr)
  : result (list event) := Ok events.

Definition feed_down (url : pystr) : result (list event) :=
  Raise RequestError.

(** A configuration file that sets nothing but the user name, and what
    [main] derives from it. *)
Definition octocat : pyval := VStr (lit "octocat").

Definition minimal_config : dict pyval := [(lit "github_username", octocat)].

Definition octocat_badge : pystr :=
  lit "https://img.shields.io/badge/dynamic/json?color=blue&label=Visitors&query=value&url=https%3A%2F%2Fapi.countapi.xyz%2Fhit%2Foctocat%2Foctocat".

Definition timestamp : pystr := lit "2024-01-01 00:00:00".

(** A configuration for [build_readme] with every optional entry a string. *)
Definition full_cfg : dict pyval :=
  [(lit "github_username", octocat);
   (lit "display_name", VStr (lit "The Octocat"));
   (lit "bio_code", VStr (lit "auto me = coder();"));
   (lit "linkedin_url", VStr (lit "https://www.linkedin.com/in/octocat"));
   (lit "visitor_badge_url", VStr octocat_badge);
   (lit "gif_url", VStr (lit "assets/coder.gif"))].

(** Configurations of the image resolver, and two file systems. *)
Definition padded_external_cfg : dict pyval :=
  [(lit "external_gif_url", VStr (lit " https://example.com/a.gif"))].

Definition gif_cfg : dict pyval :=
  [(lit "external_gif_url", VStr []);
   (lit "gif_path", VStr (lit "assets/coder.gif"));
   (lit "branch_name", VStr (lit "main"))].

Definition no_files (path : pystr) : bool := false.
Definition all_files (path : pystr) : bool := true.

End Samples.

(* ================================================================== *)
(** * The rest of the script *)

(* ================================================================== *)
(** ** The repository fetcher *)

Definition repos_url (username : pyval) : pystr :=
  lit "https://api.github.com/users/" ++ py_str username ++ lit "/repos".

Section Repos.
(** [gh_get(url, token=token, params={"per_page": 100, "page": page,
    "type": "owner", "sort": "pushed"})]: the page of the listing, or what
    the request raises. *)
Variable gh_get : pystr -> nat -> result (list repo).

(** The [while True] loop, run for at most [fuel] requests; [None] when the
    loop is still running after them. *)
Fixpoint fetch_repos_loop (fuel : nat) (url : pystr) (page : nat)
    (repos : list repo) : option (result (list repo)) :=
  match fuel with
  | O => None
  | S fuel' =>
      match gh_get url page with
      | Raise e => Some (Raise e)
      | Ok page_data =>
          match page_data with
          | [] => Some (Ok repos)
          | _ :: _ =>
              let repos' := repos ++ page_data in
              if (List.length page_data <? 100)%nat then Some (Ok repos')
              else fetch_repos_loop fuel' url (page + 1) repos'
          end
      end
  end.

Definition fetch_repos (fuel : nat) (username : pyval)
  : option (result (list repo)) :=
  fetch_repos_loop fuel (repos_url username) 1 [].

(** The pages [page], [page + 1], ... answer with the lists [full], each of
    at least 100 records. *)
Definition full_pages (url : pystr) (page : nat) (full : list (list repo))
  : Prop :=
  forall i, (i < List.length full)%nat ->
    gh_get url (page + i) = Ok (nth i full [])
    /\ (100 <= List.length (nth i full []))%nat.
End Repos.

(* ================================================================== *)
(** ** The visitor-counter badge builder *)

Module Quote.

(** [c.encode("utf-8")] for one code point; [None] for a surrogate, which
    the strict encoder refuses ([UnicodeEncodeError]). *)
Definition utf8 (c : char) : option (list N) :=
  (if c <? 128 then Some [c]
   else if c <? 2048 then Some [192 + c / 64; 128 + c mod 64]
   else if c <? 65536 then
     if (55296 <=? c) && (c <=? 57343) then None
     else Some [224 + c / 4096; 128 + (c / 64) mod 64; 128 + c mod 64]
   else
     Some [240 + (c / 262144) mod 8; 128 + (c / 4096) mod 64;
           128 + (c / 64) mod 64; 128 + c mod 64])%N.

Fixpoint encode_utf8 (s : pystr) : option (list N) :=
  match s with
  | [] => Some []
  | c :: s' =>
      match utf8 c, encode_utf8 s' with
      | Some bs, Some rest => Some (bs ++ rest)
      | _, _ => None
      end
  end.

(** [urllib.parse._ALWAYS_SAFE]: letters, digits and [_.-~]. *)
Definition always_safe (b : N) : bool :=
  ((65 <=? b) && (b <=? 90) || (97 <=? b) && (b <=? 122)
   || (48 <=? b) && (b <=? 57)
   || (b =? 95) || (b =? 46) || (b =? 45) || (b =? 126))%N.

Definition hex_digit (n : N) : char :=
  if (n <? 10)%N then (48 + n)%N else (55 + n)%N.

(** ['%{:02X}'.format(b)] *)
Definition percent_byte (b : N) : pystr :=
  [37%N; hex_digit (b / 16); hex_digit (b mod 16)].

(** [quote_from_bytes(bs, safe)] *)
Definition quote_from_bytes (safe : list N) (bs : list N) : pystr :=
  flat_map (fun b => if always_safe b || existsb (N.eqb b) safe
                     then [b] else percent_byte b) bs.

(** [quote(string, safe)] on a [str] *)
Definition quote (safe : list N) (s : pystr) : option pystr :=
  match encode_utf8 s with
  | Some bs => Some (quote_from_bytes safe bs)
  | None => None
  end.

(** [quote_plus(string)] *)
Definition quote_plus (s : pystr) : option pystr :=
  if existsb (N.eqb SPACE) s then
    match quote [SPACE] s with
    | Some q => Some (replace_char SPACE (lit "+") q)
    | None => None
    end
  else quote [] s.

(** What one character of the argument becomes. *)
Definition quote_plus_byte (b : N) : pystr :=
  if always_safe b then [b]
  else if (b =? SPACE)%N then lit "+" else percent_byte b.

(** No code point of the string is a surrogate. *)
Definition no_surrogate (s : pystr) : bool :=
  forallb (fun c => negb ((55296 <=? c) && (c <=? 57343))%N) s.

(** The characters [quote_plus] can produce. *)
Definition query_safe (c : char) : bool :=
  always_safe c || (c =? 37)%N || (c =? 43)%N.

(** The reader's side, against which the encoding is checked: the value
    of a hexadecimal digit, and the bytes that a query component stands
    for ([+] is a space, [%XY] the byte [XY], any other character
    itself); [None] when a [%] is not followed by two digits. *)
Definition unhex (c : char) : option N :=
  (if (48 <=? c) && (c <=? 57) then Some (c - 48)
   else if (65 <=? c) && (c <=? 70) then Some (c - 55)
   else if (97 <=? c) && (c <=? 102) then Some (c - 87)
   else None)%N.

Fixpoint unquote_plus_to_bytes (s : pystr) : option (list N) :=
  match s with
  | [] => Some []
  | c :: s' =>
      if (c =? 37)%N then
        match s' with
        | h :: l :: rest =>
            match unhex h, unhex l, unquote_plus_to_bytes rest with
            | Some a, Some b, Some bs => Some ((16 * a + b)%N :: bs)
            | _, _, _ => None
            end
        | _ => None
        end
      else
        match unquote_plus_to_bytes s' with
        | Some bs => Some ((if (c =? 43)%N then SPACE else c) :: bs)
        | None => None
        end
  end.

End Quote.

Definition BADGE_PREFIX : pystr :=
  lit "https://img.shields.io/badge/dynamic/json?color=blue&label=Visitors&query=value&url=".

Definition countapi_endpoint (username : pyval) : pystr :=
  lit "https://api.countapi.xyz/hit/" ++ py_str username ++ lit "/"
    ++ py_str username.

Definition build_visitor_badge (username : pyval) : option pystr :=
  match Quote.quote_plus (countapi_endpoint username) with
  | Some encoded => Some (BADGE_PREFIX ++ encoded)
  | None => None
  end.

(* ================================================================== *)
(** ** The entry point *)

(** What [load_config] meets at [config.yml]: no file; a file that
    [open] or [yaml.safe_load] refuses (not UTF-8, not YAML); a document
    that is no mapping (an empty file loads as [None], others as a scalar
    or a sequence); or a mapping, here of the values modelled. *)
Inductive config_yml :=
| NoFile
| Unreadable
| NotMapping
| Mapping (cfg : dict pyval).

(** What [main] meets: the configuration file, the [GITHUB_ACTOR]
    variable, the answers of the three endpoints, the clock and the file
    system, which is taken to let [README.md] be opened for writing.
    The token only adds a request header and, when unset, a warning on the
    error stream; the answers below are those obtained with it. *)
Record world := {
  config_file : config_yml;
  env_actor : option pystr;
  repos_net : pystr -> nat -> result (list repo);
  languages_net : pyval -> result (dict N);
  events_net : pystr -> result (list event);
  clock : pystr;
  root_dir : pystr;
  file_exists : pystr -> bool
}.

(** How a run ends: [sys.exit(1)] after a message; an exception nobody
    catches, [README.md] not having been opened; [README.md] opened, and
    thereby emptied, before [f.write] raises [UnicodeEncodeError]; or
    [README.md] written with the given text. *)
Inductive crash :=
| Uncaught (e : exn)
| UnicodeEncodeError
| ConfigError.        (* what [open] or [yaml.safe_load] raises *)

Inductive outcome :=
| Exit (code : Z) (message : pystr)
| Crashed (c : crash)
| WriteFailed
| Written (readme_md : pystr).

Definition MISSING_CONFIG : pystr :=
  lit "Missing config.yml. Please create one based on config.yml.example.".
Definition NO_USERNAME : pystr :=
  lit "No github_username in config.yml and GITHUB_ACTOR not set.".

(** [os.getenv(name)] *)
Definition getenv (v : option pystr) : pyval :=
  match v with Some s => VStr s | None => VNone end.

(** [a or b] *)
Definition py_or (a b : pyval) : pyval := if truthy a then a else b.

(** [cfg.get("github_username") or os.getenv("GITHUB_ACTOR")] *)
Definition username_of (w : world) (cfg : dict pyval) : pyval :=
  py_or (get cfg (lit "github_username")) (getenv (env_actor w)).

(** [with open(OUT_PATH, "w", encoding="utf-8") as f: f.write(readme_md)]:
    the strict UTF-8 encoder refuses a lone surrogate, which the text of
    a commit or of the configuration can hold. *)
Definition write_readme (readme_md : pystr) : outcome :=
  if Quote.no_surrogate readme_md then Written readme_md else WriteFailed.

(** [str(v)] returns on every interpreter: it does unless [v] is an
    integer of more than 4300 digits (a hexadecimal YAML literal can
    denote one), which interpreters that limit the conversion of integers
    to decimal refuse to print. *)
Definition printable (v : pyval) : bool :=
  match v with
  | VInt z => (Z.abs z <? 10 ^ 4300)%Z
  | _ => true
  end.

Definition lift {A} (r : result A) (k : A -> option outcome) : option outcome :=
  match r with
  | Ok a => k a
  | Raise e => Some (Crashed (Uncaught e))
  end.

(** [main()], with [fuel] bounding the requests of [fetch_repos]. *)
Definition main (fuel : nat) (w : world) : option outcome :=
  match config_file w with
  | NoFile => Some (Exit 1 MISSING_CONFIG)
  | Unreadable => Some (Crashed ConfigError)
  | NotMapping => Some (Crashed (Uncaught AttributeError))
  | Mapping cfg =>
      let username := username_of w cfg in
      if negb (truthy username) then Some (Exit 1 NO_USERNAME)
      else
        match fetch_repos (repos_net w) fuel username with
        | None => None
        | Some fetched =>
            lift fetched (fun repos =>
            let lang_totals :=
              fetch_languages_for_repos (languages_net w) repos in
            lift (build_language_section lang_totals) (fun lang_section_md =>
            let recent_commits :=
              fetch_recent_commits (events_net w) username 5 in
            let last_updated := clock w in
            match build_visitor_badge username with
            | None => Some (Crashed UnicodeEncodeError)
            | Some visitor_badge =>
                lift (find_gif_url (root_dir w) (file_exists w) cfg username)
                  (fun gif_url =>
                lift (build_readme
                        (readme_cfg cfg username visitor_badge gif_url)
                        (stats_img_urls_of username)
                        lang_section_md recent_commits last_updated)
                  (fun readme_md => Some (write_readme readme_md)))
            end))
        end
  end.

(** The runs that get as far as opening [README.md]. *)
Definition opens_readme (o : option outcome) : Prop :=
  o = Some WriteFailed \/ exists doc, o = Some (Written doc).

(** The order of the table's percentages: down the rows, neither the
    printed percentage nor the number of full blocks grows. *)
Definition never_grows (p q : Q) : Prop :=
  (Float.tenths q <= Float.tenths p)%Z /\ (filled_of q <= filled_of p)%Z.

(* ================================================================== *)
(** ** More sample inputs *)

Module Worlds.

(** A listing of 103 repositories in two pages, one whose second page
    fails, and one that never runs out. *)
Definition hundred_repos : list repo := repeat Samples.own_repo 100.
Definition last_repos : list repo :=
  [Samples.own_repo; Samples.fork_repo; Samples.bare_repo].

Definition two_pages (url : pystr) (page : nat) : result (list repo) :=
  match page with
  | 1%nat => Ok hundred_repos
  | 2%nat => Ok last_repos
  | _ => Ok []
  end.

Definition second_page_down (url : pystr) (page : nat)
  : result (list repo) :=
  match page with
  | 1%nat => Ok hundred_repos
  | _ => Raise RequestError
  end.

Definition endless (url : pystr) (page : nat) : result (list repo) :=
  Ok hundred_repos.

(** A user name that needs encoding: a space, a slash and an e acute. *)
Definition odd_name : pyval := VStr (lit "octo cat/" ++ [233%N]).

(** A run in which the listing answers in two pages while every languages
    request and the event feed fail. *)
Definition degraded : world :=
  {| config_file := Mapping Samples.full_cfg;
     env_actor := None;
     repos_net := two_pages;
     languages_net := fun _ => Raise RequestError;
     events_net := Samples.feed_down;
     clock := Samples.timestamp;
     root_dir := lit ".";
     file_exists := Samples.no_files |}.

(** The same run with a configuration that only names the user. *)
Definition unlinked : world :=
  {| config_file := Mapping Samples.minimal_config;
     env_actor := None;
     repos_net := two_pages;
     languages_net := Samples.languages_api;
     events_net := Samples.feed_of Samples.three_pushes;
     clock := Samples.timestamp;
     root_dir := lit ".";
     file_exists := Samples.no_files |}.

(** The same run again, with the event feed failing. *)
Definition unlinked_feed_down : world :=
  {| config_file := Mapping Samples.minimal_config;
     env_actor := None;
     repos_net := two_pages;
     languages_net := Samples.languages_api;
     events_net := Samples.feed_down;
     clock := Samples.timestamp;
     root_dir := lit ".";
     file_exists := Samples.no_files |}.

(** A feed whose one commit message holds a lone surrogate, as the JSON
    escape [\ud800] gives, and a run that meets it. *)
Definition surrogate_push : list event :=
  [{| ev_type := VStr (lit "PushEvent");
      ev_repo_name := VStr (lit "octocat/one");
      ev_commits := [{| sha := VStr (lit "a1");
                        message := VStr (lit "fix " ++ [55296%N]) |}] |}].

Definition surrogate_feed : world :=
  {| config_file := Mapping Samples.full_cfg;
     env_actor := None;
     repos_net := two_pages;
     languages_net := Samples.languages_api;
     events_net := Samples.feed_of surrogate_push;
     clock := Samples.timestamp;
     root_dir := lit ".";
     file_exists := Samples.no_files |}.

(** A run whose listing fails on the second page. *)
Definition listing_down : world :=
  {| config_file := Mapping Samples.full_cfg;
     env_actor := None;
     repos_net := second_page_down;
     languages_net := Samples.languages_api;
     events_net := Samples.feed_of Samples.three_pushes;
     clock := Samples.timestamp;
     root_dir := lit ".";
     file_exists := Samples.no_files |}.

End Worlds.

Unset Implicit Arguments.


(* ================================================================== *)
(** ** Facts about rounding *)

Module FloatFacts.
Import Float.
Local Open Scope Q_scope.

Lemma two_pow_pos e : 0 < two_pow e.
Proof. apply Qpower_0_lt. reflexivity. Qed.

Lemma two_pow_add a b : two_pow (a + b) == two_pow a * two_pow b.
Proof. apply Qpower_plus. discriminate. Qed.

Lemma two_pow_le a b : (a <= b)%Z -> two_pow a <= two_pow b.
Proof. intros H. apply Qpower_le_compat_l; [exact H | discriminate]. Qed.

Lemma two_pow_lt_inv a b : two_pow a < two_pow b -> (a < b)%Z.
Proof. intros H. apply (Qpower_lt_compat_l_inv 2); [exact H | reflexivity]. Qed.

Lemma two_pow_Z e : (0 <= e)%Z -> two_pow e == inject_Z (2 ^ e).
Proof. intros H. unfold two_pow. now rewrite Zpower_Qpower. Qed.

Lemma two_pow_opp e : two_pow (- e) == / two_pow e.
Proof. apply Qpower_opp. Qed.

Lemma div_two_pow x e : x / two_pow e == x * two_pow (- e).
Proof. unfold Qdiv. now rewrite two_pow_opp. Qed.

Lemma two_pow_cancel e : two_pow (- e) * two_pow e == 1.
Proof. rewrite <- two_pow_add. now replace (- e + e)%Z with 0%Z by lia. Qed.

(** *** The binade *)

Lemma Q_as_fraction x : x == inject_Z (Qnum x) / inject_Z (Zpos (Qden x)).
Proof. destruct x as [n d]. simpl. now rewrite Qmake_Qdiv. Qed.

Lemma floor_log2_lower x : 0 < x -> two_pow (floor_log2 x) <= x.
Proof.
  intros Hx. unfold floor_log2.
  set (k := (Z.log2 (Qnum x) - Z.log2 (Z.pos (Qden x)))%Z).
  destruct (Qle_bool (two_pow k) x) eqn:E.
  - now apply Qle_bool_iff.
  - assert (Hn : (0 < Qnum x)%Z).
    { destruct x as [n d]. unfold Qlt in Hx. simpl in *. lia. }
    pose proof (Z.log2_spec _ Hn) as [Hn1 _].
    pose proof (Z.log2_spec (Z.pos (Qden x)) ltac:(lia)) as [_ Hd2].
    pose proof (Z.log2_nonneg (Qnum x)) as Ha.
    pose proof (Z.log2_nonneg (Z.pos (Qden x))) as Hb.
    set (a := Z.log2 (Qnum x)) in *. set (b := Z.log2 (Z.pos (Qden x))) in *.
    replace (k - 1)%Z with (a + - (b + 1))%Z by (unfold k; lia).
    rewrite two_pow_add, two_pow_opp, !two_pow_Z by lia.
    apply Qle_trans with (inject_Z (Qnum x) / inject_Z (Zpos (Qden x)));
      [| rewrite <- Q_as_fraction; apply Qle_refl].
    assert (H1 : inject_Z (2 ^ a) <= inject_Z (Qnum x))
      by (rewrite <- Zle_Qle; exact Hn1).
    assert (H2 : inject_Z (Z.pos (Qden x)) <= inject_Z (2 ^ (b + 1)))
      by (rewrite <- Zle_Qle; lia).
    assert (H3 : 0 < inject_Z (Z.pos (Qden x))) by reflexivity.
    assert (H4 : 0 < inject_Z (2 ^ a)).
    { replace 0 with (inject_Z 0) by reflexivity. rewrite <- Zlt_Qlt.
      apply Z.pow_pos_nonneg; lia. }
    unfold Qdiv.
    apply Qle_trans with (inject_Z (2 ^ a) * / inject_Z (Z.pos (Qden x))).
    + apply Qmult_le_l; [exact H4|].
      apply Qle_shift_inv_l; [exact H3|].
      rewrite Qmult_comm. apply Qle_shift_div_r.
      * exact (Qlt_le_trans _ _ _ H3 H2).
      * now rewrite Qmult_1_l.
    + apply Qmult_le_compat_r; [exact H1|].
      apply Qlt_le_weak, Qinv_lt_0_compat, H3.
Qed.

Lemma floor_log2_le x k : 0 < x -> x < two_pow (k + 1) -> (floor_log2 x <= k)%Z.
Proof.
  intros Hx Hk. pose proof (floor_log2_lower x Hx) as H.
  pose proof (two_pow_lt_inv _ _ (Qle_lt_trans _ _ _ H Hk)). lia.
Qed.

Lemma ulp_exp_le x k :
  0 < x -> x < two_pow (k + 1) -> (-1074 <= k - 52)%Z -> (ulp_exp x <= k - 52)%Z.
Proof.
  intros Hx Hk Hm. unfold ulp_exp. pose proof (floor_log2_le x k Hx Hk). lia.
Qed.

(** *** Rounding to an integer *)

Lemma round_half_even_near y :
  y - (1 # 2) <= inject_Z (round_half_even y) <= y + (1 # 2).
Proof.
  unfold round_half_even.
  pose proof (Qfloor_le y) as Hlo. pose proof (Qlt_floor y) as Hhi.
  rewrite inject_Z_plus in Hhi. change (inject_Z 1) with 1 in Hhi.
  generalize dependent (Qfloor y). intros f Hlo Hhi.
  destruct (y - inject_Z f ?= 1 # 2) eqn:E.
  - apply Qeq_alt in E.
    destruct (Z.even f); rewrite ?inject_Z_plus;
      change (inject_Z 1) with 1. all: lra.
  - apply Qlt_alt in E. lra.
  - apply Qgt_alt in E. rewrite inject_Z_plus.
    change (inject_Z 1) with 1. lra.
Qed.

Lemma round_half_even_le y (K : Z) :
  y <= inject_Z K -> (round_half_even y <= K)%Z.
Proof.
  intros H. unfold round_half_even.
  pose proof (Qfloor_le y) as Hlo.
  assert (Hf : (Qfloor y <= K)%Z).
  { rewrite <- (Qfloor_Z K). now apply Qfloor_resp_le. }
  generalize dependent (Qfloor y). intros f Hlo Hf.
  assert (Hup : inject_Z f < y -> (f + 1 <= K)%Z).
  { intros Hlt. assert (inject_Z f < inject_Z K) by lra.
    rewrite <- Zlt_Qlt in H0. lia. }
  destruct (y - inject_Z f ?= 1 # 2) eqn:E.
  - apply Qeq_alt in E. destruct (Z.even f); [exact Hf | apply Hup; lra].
  - exact Hf.
  - apply Qgt_alt in E. apply Hup; lra.
Qed.

Lemma round_half_even_ge y (K : Z) :
  inject_Z K <= y -> (K <= round_half_even y)%Z.
Proof.
  intros H. unfold round_half_even.
  assert (Hf : (K <= Qfloor y)%Z).
  { rewrite <- (Qfloor_Z K). now apply Qfloor_resp_le. }
  destruct (y - inject_Z (Qfloor y) ?= 1 # 2); [destruct (Z.even _)| |]; lia.
Qed.

Lemma round_half_even_tie (K : Z) :
  round_half_even (inject_Z K + (1 # 2)) = if Z.even K then K else (K + 1)%Z.
Proof.
  unfold round_half_even.
  assert (Hf : Qfloor (inject_Z K + (1 # 2)) = K).
  { apply Z.le_antisymm.
    - apply Z.lt_succ_r. rewrite Zlt_Qlt.
      apply Qle_lt_trans with (inject_Z K + (1 # 2)); [apply Qfloor_le|].
      unfold Z.succ. rewrite inject_Z_plus. change (inject_Z 1) with 1.
      generalize (inject_Z K). intros q. lra.
    - rewrite <- (Qfloor_Z K) at 1. apply Qfloor_resp_le.
      generalize (inject_Z K). intros q. lra. }
  rewrite Hf.
  assert (E : (inject_Z K + (1 # 2) - inject_Z K ?= 1 # 2) = Eq).
  { apply Qeq_alt. ring. }
  now rewrite E.
Qed.

Lemma round_half_even_Z (K : Z) : round_half_even (inject_Z K) = K.
Proof.
  apply Z.le_antisymm.
  - apply round_half_even_le. lra.
  - apply round_half_even_ge. lra.
Qed.
End FloatFacts.

(** *** Rounding to binary64 *)

Module RnFacts.
Import Float FloatFacts.
Local Open Scope Q_scope.

Lemma scaled_back x e : x / two_pow e * two_pow e == x.
Proof.
  rewrite div_two_pow, <- Qmult_assoc, two_pow_cancel. ring.
Qed.

Lemma rn_pos_nonneg x : 0 < x -> 0 <= rn_pos x.
Proof.
  intros Hx. unfold rn_pos.
  pose proof (two_pow_pos (ulp_exp x)) as He.
  apply Qmult_le_0_compat; [| now apply Qlt_le_weak].
  change 0 with (inject_Z 0). rewrite <- Zle_Qle.
  apply round_half_even_ge. change (inject_Z 0) with 0.
  apply Qle_shift_div_l; [exact He | lra].
Qed.

Lemma rn_pos_le_int x (c : Z) :
  0 < x -> x <= inject_Z c -> (c < 2 ^ 53)%Z -> rn_pos x <= inject_Z c.
Proof.
  intros Hx Hc Hb. unfold rn_pos.
  assert (Hlt : x < two_pow (52 + 1)).
  { rewrite two_pow_Z by lia. apply Qle_lt_trans with (inject_Z c); [exact Hc|].
    now rewrite <- Zlt_Qlt. }
  pose proof (ulp_exp_le x 52 Hx Hlt ltac:(lia)) as He.
  set (e := ulp_exp x) in *.
  pose proof (two_pow_pos e) as Hp.
  assert (HK : x / two_pow e <= inject_Z (c * 2 ^ (- e))).
  { rewrite div_two_pow, inject_Z_mult, <- two_pow_Z by lia.
    apply Qmult_le_compat_r; [exact Hc|]. apply Qlt_le_weak, two_pow_pos. }
  apply round_half_even_le in HK. rewrite Zle_Qle in HK.
  apply Qle_trans with (inject_Z (c * 2 ^ (- e)) * two_pow e).
  - apply Qmult_le_compat_r; [exact HK | now apply Qlt_le_weak].
  - rewrite inject_Z_mult, <- two_pow_Z, <- Qmult_assoc, two_pow_cancel by lia.
    rewrite Qmult_1_r. apply Qle_refl.
Qed.

Lemma rn_pos_near x :
  0 < x -> Qabs (rn_pos x - x) <= two_pow (ulp_exp x) * (1 # 2).
Proof.
  intros Hx. unfold rn_pos. set (e := ulp_exp x).
  pose proof (two_pow_pos e) as Hp.
  pose proof (round_half_even_near (x / two_pow e)) as [Hlo Hhi].
  pose proof (scaled_back x e) as Hx'.
  remember (x / two_pow e) as y eqn:Ey.
  remember (inject_Z (round_half_even y)) as m eqn:Em.
  remember (two_pow e) as p eqn:Ep. clear Ey Em Ep.
  apply Qabs_Qle_condition. rewrite <- Hx'.
  split.
  - setoid_replace (- (p * (1 # 2))) with ((- (1 # 2)) * p) by ring.
    setoid_replace (m * p - y * p) with ((m - y) * p) by ring.
    apply Qmult_le_compat_r; lra.
  - setoid_replace (p * (1 # 2)) with ((1 # 2) * p) by ring.
    setoid_replace (m * p - y * p) with ((m - y) * p) by ring.
    apply Qmult_le_compat_r; lra.
Qed.

Lemma rn_pos_near_below x k :
  0 < x -> x < two_pow (k + 1) -> (-1074 <= k - 52)%Z ->
  Qabs (rn_pos x - x) <= two_pow (k - 53).
Proof.
  intros Hx Hk Hm.
  apply Qle_trans with (two_pow (ulp_exp x) * (1 # 2)); [now apply rn_pos_near|].
  pose proof (ulp_exp_le x k Hx Hk Hm) as He.
  apply Qle_trans with (two_pow (k - 52) * (1 # 2)).
  - apply Qmult_le_compat_r; [now apply two_pow_le | discriminate].
  - replace (k - 52)%Z with ((k - 53) + 1)%Z by lia.
    rewrite two_pow_add. change (two_pow 1) with 2.
    generalize (two_pow (k - 53)). intros p. lra.
Qed.

Lemma rn_of_pos x : 0 < x -> rn x = rn_pos x.
Proof. intros Hx. unfold rn. apply Qgt_alt in Hx. now rewrite Hx. Qed.

Lemma rn_of_zero x : x == 0 -> rn x = 0.
Proof. intros Hx. unfold rn. apply Qeq_alt in Hx. now rewrite Hx. Qed.

Lemma nonneg_cases x : 0 <= x -> x == 0 \/ 0 < x.
Proof. intros H. destruct (Qlt_le_dec 0 x); [now right | left; lra]. Qed.

Lemma rn_nonneg x : 0 <= x -> 0 <= rn x.
Proof.
  intros H. destruct (nonneg_cases x H) as [H0|H0].
  - rewrite (rn_of_zero x H0). apply Qle_refl.
  - rewrite (rn_of_pos x H0). now apply rn_pos_nonneg.
Qed.

Lemma rn_le_int x (c : Z) :
  0 <= x -> x <= inject_Z c -> (c < 2 ^ 53)%Z -> rn x <= inject_Z c.
Proof.
  intros H Hc Hb. destruct (nonneg_cases x H) as [H0|H0].
  - rewrite (rn_of_zero x H0). lra.
  - rewrite (rn_of_pos x H0). now apply rn_pos_le_int.
Qed.

Lemma rn_near_below x k :
  0 <= x -> x < two_pow (k + 1) -> (-1074 <= k - 52)%Z ->
  Qabs (rn x - x) <= two_pow (k - 53).
Proof.
  intros H Hk Hm. destruct (nonneg_cases x H) as [H0|H0].
  - rewrite (rn_of_zero x H0).
    setoid_replace (0 - x) with 0 by lra.
    apply Qlt_le_weak, two_pow_pos.
  - rewrite (rn_of_pos x H0). now apply rn_pos_near_below.
Qed.
End RnFacts.

(* ================================================================== *)
(** ** Facts about percentages and bars *)

Module PercentFacts.
Import Float FloatFacts RnFacts.
Local Open Scope Q_scope.

Lemma share_range b total :
  (b <= total)%N -> (0 < total)%N -> 0 <= share b total <= 1.
Proof.
  intros Hb Ht. unfold share.
  assert (H0 : 0 < inject_Z (Z.of_N total)).
  { change 0 with (inject_Z 0). rewrite <- Zlt_Qlt. lia. }
  split.
  - apply Qle_shift_div_l; [exact H0|]. rewrite Qmult_0_l.
    change 0 with (inject_Z 0). rewrite <- Zle_Qle. lia.
  - apply Qle_shift_div_r; [exact H0|]. rewrite Qmult_1_l.
    rewrite <- Zle_Qle. lia.
Qed.

Lemma percent_eq b total :
  (0 < total)%N ->
  percent b total = Ok (mul (rn (share b total)) 100).
Proof.
  intros Ht. unfold percent, truediv.
  destruct (N.eqb_spec total 0) as [E|E]; [lia | reflexivity].
Qed.

Lemma two_pow_m53 : two_pow (0 - 53) == 1 # 9007199254740992.
Proof. reflexivity. Qed.

Lemma two_pow_m47 : two_pow (6 - 53) == 1 # 140737488355328.
Proof. reflexivity. Qed.

Lemma quotient_range b total :
  (b <= total)%N -> (0 < total)%N ->
  0 <= rn (share b total) <= 1
  /\ Qabs (rn (share b total) - share b total) <= 1 # 9007199254740992.
Proof.
  intros Hb Ht. destruct (share_range b total Hb Ht) as [H0 H1].
  repeat split.
  - now apply rn_nonneg.
  - apply (rn_le_int _ 1); [exact H0 | exact H1 | reflexivity].
  - rewrite <- two_pow_m53. apply rn_near_below; [exact H0 | | lia].
    change (two_pow (0 + 1)) with 2. lra.
Qed.

Lemma mul_100_range q :
  0 <= q <= 1 ->
  0 <= mul q 100 <= 100
  /\ Qabs (mul q 100 - q * 100) <= 1 # 140737488355328.
Proof.
  intros [H0 H1]. unfold mul. repeat split.
  - apply rn_nonneg. lra.
  - apply (rn_le_int _ 100); [lra | | reflexivity].
    change (inject_Z 100) with 100. lra.
  - rewrite <- two_pow_m47. apply rn_near_below; [lra | | lia].
    change (two_pow (6 + 1)) with 128. lra.
Qed.

Lemma pct_range b total :
  (b <= total)%N -> (0 < total)%N -> 0 <= pct_of b total <= 100.
Proof.
  intros Hb Ht. destruct (quotient_range b total Hb Ht) as [Hq _].
  now destruct (mul_100_range _ Hq).
Qed.

Lemma pct_near b total :
  (b <= total)%N -> (0 < total)%N ->
  Qabs (pct_of b total - share b total * 100) <= 1 # 35184372088832.
Proof.
  intros Hb Ht. destruct (quotient_range b total Hb Ht) as [Hq Hn].
  destruct (mul_100_range _ Hq) as [_ Hm]. unfold pct_of.
  apply Qabs_Qle_condition in Hn. apply Qabs_Qle_condition in Hm.
  apply Qabs_Qle_condition.
  generalize dependent (mul (rn (share b total)) 100). intros p Hm.
  generalize dependent (rn (share b total)). intros q Hq Hn Hm.
  generalize dependent (share b total). intros s Hn. lra.
Qed.

Lemma rendered_near x : Qabs (rendered x - x) <= 1 # 20.
Proof.
  unfold rendered, tenths.
  pose proof (round_half_even_near (x * 10)) as H.
  generalize dependent (inject_Z (round_half_even (x * 10))). intros t H.
  apply Qabs_Qle_condition. unfold Qdiv.
  setoid_replace (/ 10) with (1 # 10) by reflexivity. lra.
Qed.

Lemma rendered_pct_near b total :
  (b <= total)%N -> (0 < total)%N ->
  Qabs (rendered (pct_of b total) - share b total * 100)
    <= (1 # 20) + (1 # 35184372088832).
Proof.
  intros Hb Ht. pose proof (pct_near b total Hb Ht) as H1.
  pose proof (rendered_near (pct_of b total)) as H2.
  apply Qabs_Qle_condition in H1. apply Qabs_Qle_condition in H2.
  apply Qabs_Qle_condition.
  generalize dependent (rendered (pct_of b total)). intros r H2.
  generalize dependent (pct_of b total). intros p H1 H2.
  generalize dependent (share b total). intros s H1. lra.
Qed.

(** *** The bar *)

Lemma rn_20 : rn (inject_Z 20) == 20.
Proof. reflexivity. Qed.

Lemma filled_range pct : 0 <= pct <= 100 -> (0 <= filled_of pct <= 20)%Z.
Proof.
  intros [H0 H1]. unfold filled_of, py_round, mul, div.
  assert (Hd : 0 <= rn (pct / 100) <= 1).
  { assert (0 <= pct / 100 <= 1).
    { unfold Qdiv. setoid_replace (/ 100) with (1 # 100) by reflexivity. lra. }
    split; [apply rn_nonneg; tauto|].
    apply (rn_le_int _ 1); [tauto | tauto | reflexivity]. }
  generalize dependent (rn (pct / 100)). intros d Hd.
  assert (Hm : 0 <= d * rn (inject_Z 20) <= 20).
  { rewrite rn_20. lra. }
  generalize dependent (d * rn (inject_Z 20)). intros m Hm.
  split.
  - apply round_half_even_ge. apply rn_nonneg. tauto.
  - apply round_half_even_le. apply (rn_le_int _ 20); [tauto | tauto | reflexivity].
Qed.

Lemma progress_bar_20 pct :
  progress_bar pct 20
  = repeat BLOCK_FULL (Z.to_nat (filled_of pct))
    ++ repeat BLOCK_LIGHT (Z.to_nat (20 - filled_of pct)).
Proof. reflexivity. Qed.

Lemma progress_bar_length pct :
  0 <= pct <= 100 -> List.length (progress_bar pct 20) = 20%nat.
Proof.
  intros H. pose proof (filled_range pct H).
  rewrite progress_bar_20, length_app, !repeat_length. lia.
Qed.
End PercentFacts.

Module BarFacts.
Import Float FloatFacts RnFacts PercentFacts.
Local Open Scope Q_scope.

(** [round_half_even] returns what its name says. *)
Lemma round_half_even_nearest y : nearest_even (round_half_even y) y.
Proof.
  unfold nearest_even, round_half_even.
  pose proof (Qfloor_le y) as Hlo. pose proof (Qlt_floor y) as Hhi.
  rewrite inject_Z_plus in Hhi. change (inject_Z 1) with 1 in Hhi.
  destruct (y - inject_Z (Qfloor y) ?= 1 # 2) eqn:E.
  - apply Qeq_alt in E. split.
    + apply Qabs_Qle_condition.
      destruct (Z.even (Qfloor y)); rewrite ?inject_Z_plus;
        change (inject_Z 1) with 1; lra.
    + intros _. destruct (Z.even (Qfloor y)) eqn:Ev; [exact Ev|].
      rewrite Z.even_add, Ev. reflexivity.
  - apply Qlt_alt in E. split.
    + apply Qabs_Qle_condition. lra.
    + intros T. rewrite Qabs_neg in T by lra. lra.
  - apply Qgt_alt in E. rewrite inject_Z_plus. change (inject_Z 1) with 1.
    split.
    + apply Qabs_Qle_condition. lra.
    + intros T. rewrite Qabs_pos in T by lra. lra.
Qed.

Lemma two_pow_m49 : two_pow (4 - 53) == 1 # 562949953421312.
Proof. reflexivity. Qed.

(** The two float operations under [round] lose at most [2^-47]. *)
Lemma bar_arg_near pct :
  0 <= pct <= 100 ->
  Qabs (mul (div pct 100) (rn (inject_Z 20)) - pct / 100 * 20)
    <= 1 # 140737488355328.
Proof.
  intros [H0 H1]. unfold mul, div.
  assert (Hq : 0 <= pct / 100 <= 1).
  { unfold Qdiv. setoid_replace (/ 100) with (1 # 100) by reflexivity. lra. }
  assert (Hd : 0 <= rn (pct / 100) <= 1
               /\ Qabs (rn (pct / 100) - pct / 100) <= 1 # 9007199254740992).
  { repeat split.
    - apply rn_nonneg; tauto.
    - apply (rn_le_int _ 1); [tauto | tauto | reflexivity].
    - rewrite <- two_pow_m53. apply rn_near_below; [tauto | | lia].
      change (two_pow (0 + 1)) with 2. lra. }
  generalize dependent (pct / 100). intros q Hq Hd.
  destruct Hd as [Hd Hn].
  generalize dependent (rn q). intros d Hd Hn.
  assert (Hm : 0 <= d * rn (inject_Z 20) <= 20
               /\ d * rn (inject_Z 20) == d * 20).
  { rewrite rn_20. split; [lra | reflexivity]. }
  generalize dependent (d * rn (inject_Z 20)). intros m [Hm Hm'].
  assert (He : Qabs (rn m - m) <= 1 # 562949953421312).
  { rewrite <- two_pow_m49. apply rn_near_below; [tauto | | lia].
    change (two_pow (4 + 1)) with 32. lra. }
  apply Qabs_Qle_condition in Hn. apply Qabs_Qle_condition in He.
  apply Qabs_Qle_condition.
  generalize dependent (rn m). intros r He. lra.
Qed.

Lemma filled_of_nearest pct :
  nearest_even (filled_of pct)
    (mul (div pct 100) (rn (inject_Z 20))).
Proof. apply round_half_even_nearest. Qed.
End BarFacts.

(* ================================================================== *)
(** ** Facts about strings, dictionaries, sorting and sums *)

Lemma str_eqb_eq a b : str_eqb a b = true <-> a = b.
Proof.
  unfold str_eqb. destruct (list_eq_dec N.eq_dec a b); split; congruence.
Qed.

Lemma str_eqb_refl a : str_eqb a a = true.
Proof. now apply str_eqb_eq. Qed.

Lemma str_eqb_neq a b : a <> b -> str_eqb a b = false.
Proof.
  intros H. destruct (str_eqb a b) eqn:E; [|reflexivity].
  apply str_eqb_eq in E. contradiction.
Qed.

Lemma str_eqb_sym a b : str_eqb a b = str_eqb b a.
Proof.
  destruct (str_eqb b a) eqn:E.
  - apply str_eqb_eq in E. subst. apply str_eqb_refl.
  - apply str_eqb_neq. intros ->. now rewrite str_eqb_refl in E.
Qed.

Module DictFacts.
Section Generic.
Context {V : Type}.

Lemma set_item_fresh (d : dict V) k v :
  ~ In k (keys d) -> set_item d k v = d ++ [(k, v)].
Proof.
  induction d as [|[k' v'] d IH]; simpl; intros H; [reflexivity|].
  rewrite str_eqb_neq by tauto. f_equal. apply IH. tauto.
Qed.

Lemma fold_set_item_fresh (l acc : dict V) :
  NoDup (keys (acc ++ l)) ->
  fold_left (fun d kv => set_item d (fst kv) (snd kv)) l acc = acc ++ l.
Proof.
  revert acc. induction l as [|[k v] l IH]; intros acc H; simpl.
  - now rewrite app_nil_r.
  - assert (Hk : ~ In k (keys acc)).
    { unfold keys in *. rewrite map_app in H. simpl in H.
      apply NoDup_remove_2 in H. rewrite in_app_iff in H. tauto. }
    rewrite (set_item_fresh acc k v Hk), IH, <- app_assoc; [reflexivity|].
    now rewrite <- app_assoc.
Qed.

Lemma of_pairs_nodup (l : dict V) : NoDup (keys l) -> of_pairs l = l.
Proof. intros H. unfold of_pairs. now rewrite fold_set_item_fresh. Qed.
End Generic.
End DictFacts.

Module SortFacts.

Lemma insert_desc_perm x l : Permutation (insert_desc x l) (x :: l).
Proof.
  induction l as [|y l IH]; simpl; [reflexivity|].
  destruct (snd x <? snd y)%N; [|reflexivity].
  rewrite IH. apply perm_swap.
Qed.

Lemma sorted_desc_perm l : Permutation (sorted_desc l) l.
Proof.
  induction l as [|x l IH]; simpl; [reflexivity|].
  rewrite insert_desc_perm. now constructor.
Qed.

Lemma insert_desc_sorted x l :
  StronglySorted by_bytes_desc l ->
  StronglySorted by_bytes_desc (insert_desc x l).
Proof.
  induction 1 as [|y l Hs IH Hy]; simpl.
  - constructor; constructor.
  - destruct (N.ltb_spec (snd x) (snd y)) as [Hlt|Hge].
    + constructor; [exact IH|].
      apply (Permutation_Forall (Permutation_sym (insert_desc_perm x l))).
      constructor; [unfold by_bytes_desc; lia | exact Hy].
    + constructor; [now constructor|].
      constructor; [exact Hge|].
      eapply Forall_impl; [|exact Hy].
      unfold by_bytes_desc. intros z Hz. lia.
Qed.

Lemma sorted_desc_sorted l : StronglySorted by_bytes_desc (sorted_desc l).
Proof.
  induction l as [|x l IH]; simpl; [constructor | now apply insert_desc_sorted].
Qed.

Lemma insert_desc_stable n x l :
  filter (has_bytes n) (insert_desc x l) = filter (has_bytes n) (x :: l).
Proof.
  induction l as [|y l IH]; [reflexivity|].
  cbn [insert_desc]. destruct (N.ltb_spec (snd x) (snd y)) as [Hlt|Hge];
    [|reflexivity].
  cbn [filter] in *. rewrite IH. unfold has_bytes.
  destruct (N.eqb_spec (snd x) n), (N.eqb_spec (snd y) n); try reflexivity.
  lia.
Qed.

Lemma sorted_desc_stable n l :
  filter (has_bytes n) (sorted_desc l) = filter (has_bytes n) l.
Proof.
  induction l as [|x l IH]; [reflexivity|].
  cbn [sorted_desc]. rewrite insert_desc_stable. cbn [filter]. now rewrite IH.
Qed.

Lemma ordered_items_sorted lang_totals :
  NoDup (keys lang_totals) ->
  ordered_items lang_totals = sorted_desc lang_totals.
Proof.
  intros H. unfold ordered_items. apply DictFacts.of_pairs_nodup.
  unfold keys. eapply Permutation_NoDup; [|exact H].
  apply Permutation_map, Permutation_sym, sorted_desc_perm.
Qed.
End SortFacts.

Module SumFacts.
Lemma fold_add l a : fold_left N.add l a = (a + Nsum l)%N.
Proof.
  revert a. induction l as [|x l IH]; intros a; simpl; [lia|].
  rewrite IH. lia.
Qed.

Lemma sum_values_Nsum (d : dict N) : sum_values d = Nsum (values d).
Proof. unfold sum_values. now rewrite fold_add. Qed.

Lemma Nsum_perm l l' : Permutation l l' -> Nsum l = Nsum l'.
Proof. induction 1; simpl; lia. Qed.

Lemma Nsum_in x l : In x l -> (x <= Nsum l)%N.
Proof.
  induction l as [|y l IH]; simpl; [tauto|].
  intros [->|H]; [lia|]. specialize (IH H). lia.
Qed.

Lemma sum_values_perm (d d' : dict N) :
  Permutation d d' -> sum_values d = sum_values d'.
Proof.
  intros H. rewrite !sum_values_Nsum. apply Nsum_perm.
  unfold values. now apply Permutation_map.
Qed.

Lemma sum_values_in (d : dict N) kv : In kv d -> (snd kv <= sum_values d)%N.
Proof.
  intros H. rewrite sum_values_Nsum. apply Nsum_in. unfold values.
  now apply in_map.
Qed.

Lemma sum_values_zero (d : dict N) :
  sum_values d = 0%N <-> Forall (fun kv => snd kv = 0%N) d.
Proof.
  rewrite sum_values_Nsum. unfold values.
  induction d as [|[k v] d IH]; simpl.
  - split; [constructor | reflexivity].
  - split.
    + intros H. constructor; [simpl; lia | apply IH; lia].
    + intros H. inversion H as [|? ? H1 H2]; subst. simpl in H1.
      apply IH in H2. lia.
Qed.
End SumFacts.

(* ================================================================== *)
(** ** Facts about the renderer *)

Lemma map_result_ok {A B} (f : A -> result B) (g : A -> B) l :
  (forall x, In x l -> f x = Ok (g x)) -> map_result f l = Ok (List.map g l).
Proof.
  induction l as [|x l IH]; intros H; simpl; [reflexivity|].
  rewrite (H x (or_introl eq_refl)). simpl.
  rewrite IH by (intros y Hy; apply H; now right). reflexivity.
Qed.

Module RendererFacts.
Import Float FloatFacts RnFacts PercentFacts DictFacts SortFacts SumFacts.
Local Open Scope Q_scope.

Lemma Qsum_near {A} (r s : A -> Q) (eps : Q) l :
  (forall a, In a l -> Qabs (r a - s a) <= eps) ->
  Qabs (Qsum (List.map r l) - Qsum (List.map s l))
    <= inject_Z (Z.of_nat (List.length l)) * eps.
Proof.
  induction l as [|a l IH]; intros H.
  - cbn [List.map Qsum fold_right List.length Z.of_nat].
    change (inject_Z 0) with 0. apply Qabs_Qle_condition. lra.
  - specialize (IH (fun b Hb => H b (or_intror Hb))).
    pose proof (H a (or_introl eq_refl)) as Ha.
    cbn [List.map Qsum fold_right List.length].
    fold (Qsum (List.map r l)). fold (Qsum (List.map s l)).
    rewrite Nat2Z.inj_succ, <- Z.add_1_r, inject_Z_plus.
    change (inject_Z 1) with 1.
    apply Qabs_Qle_condition in IH. apply Qabs_Qle_condition in Ha.
    apply Qabs_Qle_condition.
    generalize dependent (inject_Z (Z.of_nat (List.length l))). intros n.
    generalize (Qsum (List.map r l)) (Qsum (List.map s l)).
    generalize dependent (r a). intros ra. generalize (s a).
    intros sa Ha R S IH. lra.
Qed.

Lemma inject_N_nonzero n : (0 < n)%N -> ~ inject_Z (Z.of_N n) == 0.
Proof. intros H E. unfold Qeq in E. simpl in E. lia. Qed.

Lemma Qsum_shares (l : dict N) total :
  (0 < total)%N ->
  Qsum (List.map (fun kv => share (snd kv) total * 100) l)
    == inject_Z (Z.of_N (Nsum (values l))) * 100 / inject_Z (Z.of_N total).
Proof.
  intros Ht.
  assert (H0 : ~ inject_Z (Z.of_N total) == 0).
  { now apply inject_N_nonzero. }
  induction l as [|[k b] l IH]; simpl.
  - field. exact H0.
  - fold (Qsum (List.map (fun kv => share (snd kv) total * 100) l)).
    rewrite IH. unfold share, values.
    rewrite N2Z.inj_add, inject_Z_plus. field. exact H0.
Qed.

Lemma Qsum_shares_total (l : dict N) :
  (0 < sum_values l)%N ->
  Qsum (List.map (fun kv => share (snd kv) (sum_values l) * 100) l) == 100.
Proof.
  intros Ht. rewrite (Qsum_shares l _ Ht), <- sum_values_Nsum.
  assert (H0 : ~ inject_Z (Z.of_N (sum_values l)) == 0).
  { now apply inject_N_nonzero. }
  field. exact H0.
Qed.

Lemma ordered_items_perm lt :
  NoDup (keys lt) -> Permutation (ordered_items lt) lt.
Proof.
  intros H. rewrite (ordered_items_sorted lt H). apply sorted_desc_perm.
Qed.

Lemma ordered_items_total lt :
  NoDup (keys lt) -> sum_values (ordered_items lt) = sum_values lt.
Proof. intros H. apply sum_values_perm. now apply ordered_items_perm. Qed.

Lemma ordered_items_bound lt kv :
  NoDup (keys lt) -> In kv (ordered_items lt) -> (snd kv <= sum_values lt)%N.
Proof.
  intros H Hin. apply sum_values_in.
  eapply Permutation_in; [apply ordered_items_perm; exact H | exact Hin].
Qed.

Lemma row_percents_eq lt :
  (0 < sum_values lt)%N ->
  row_percents lt
  = Ok (List.map (fun kv => pct_of (snd kv) (sum_values lt)) (ordered_items lt)).
Proof.
  intros Ht. unfold row_percents. apply map_result_ok.
  intros kv _. now apply percent_eq.
Qed.

Lemma language_row_eq total kv :
  (0 < total)%N ->
  language_row total kv = Ok (row_text (fst kv) (pct_of (snd kv) total)).
Proof. intros Ht. unfold language_row. now rewrite percent_eq. Qed.

Lemma build_language_section_eq lt :
  (0 < sum_values lt)%N ->
  build_language_section lt
  = Ok (join nl (TABLE_HEAD
                 ++ List.map (fun kv => row_text (fst kv)
                                          (pct_of (snd kv) (sum_values lt)))
                      (ordered_items lt)) ++ nl)%list.
Proof.
  intros Ht. unfold build_language_section.
  destruct (N.eqb_spec (sum_values lt) 0) as [E|E]; [lia|].
  rewrite (map_result_ok _ (fun kv => row_text (fst kv)
                                        (pct_of (snd kv) (sum_values lt)))).
  - reflexivity.
  - intros kv _. now apply language_row_eq.
Qed.

Lemma rendered_sum_near_list (l : dict N) total :
  (0 < total)%N -> sum_values l = total ->
  Qabs (Qsum (List.map (fun kv => rendered (pct_of (snd kv) total)) l) - 100)
    <= inject_Z (Z.of_nat (List.length l))
       * ((1 # 20) + (1 # 35184372088832)).
Proof.
  intros Ht <-.
  rewrite <- (Qsum_shares_total l Ht).
  apply (Qsum_near (fun kv => rendered (pct_of (snd kv) (sum_values l)))
                   (fun kv => share (snd kv) (sum_values l) * 100)).
  intros kv Hin. apply rendered_pct_near; [|exact Ht].
  now apply sum_values_in.
Qed.

Lemma rendered_sum_near lt :
  NoDup (keys lt) -> (0 < sum_values lt)%N ->
  Qabs (Qsum (List.map (fun kv => rendered (pct_of (snd kv) (sum_values lt)))
                (ordered_items lt)) - 100)
    <= inject_Z (Z.of_nat (List.length lt))
       * ((1 # 20) + (1 # 35184372088832)).
Proof.
  intros Hk Ht.
  rewrite <- (Permutation_length (ordered_items_perm lt Hk)).
  apply rendered_sum_near_list; [exact Ht | now apply ordered_items_total].
Qed.
End RendererFacts.

(* ================================================================== *)
(** ** Facts about the aggregator and the activity fetcher *)

Module AggregatorFacts.
Section WithNetwork.
Variable gh_get : pyval -> result (dict N).

Lemma get_or_set_item (t : dict N) k v k' d :
  get_or (set_item t k v) k' d
  = if str_eqb k k' then v else get_or t k' d.
Proof.
  unfold get_or. induction t as [|[k0 v0] t IH]; simpl.
  - destruct (str_eqb k k'); reflexivity.
  - destruct (str_eqb k0 k) eqn:E; simpl.
    + apply str_eqb_eq in E. subst k0.
      destruct (str_eqb k k'); reflexivity.
    + destruct (str_eqb k0 k') eqn:E'; [|exact IH].
      apply str_eqb_eq in E'. subst k0.
      rewrite str_eqb_sym, E. reflexivity.
Qed.

Lemma add_languages_bytes (data t : dict N) lang :
  get_or (add_languages t data) lang 0%N
  = (get_or t lang 0 + bytes_of data lang)%N.
Proof.
  unfold add_languages, bytes_of. revert t.
  induction data as [|[k v] data IH]; intros t; simpl; [lia|].
  rewrite IH, get_or_set_item.
  destruct (str_eqb k lang) eqn:E; [|lia].
  apply str_eqb_eq in E. subst k. lia.
Qed.

Lemma add_languages_nil (t : dict N) : add_languages t [] = t.
Proof. reflexivity. Qed.

Lemma loop_step r rest totals :
  fetch_languages_loop gh_get (r :: rest) totals
  = fetch_languages_loop gh_get rest
      (add_languages totals (contribution gh_get r)).
Proof.
  unfold contribution. simpl.
  destruct (truthy (get r (lit "fork"))); [reflexivity|].
  destruct (truthy (get r (lit "languages_url"))); [|reflexivity].
  simpl. destruct (gh_get (get r (lit "languages_url"))); reflexivity.
Qed.

Lemma loop_fold repos totals :
  fetch_languages_loop gh_get repos totals
  = fold_left add_languages (List.map (contribution gh_get) repos) totals.
Proof.
  revert totals. induction repos as [|r rest IH]; intros totals;
    [reflexivity|].
  rewrite loop_step, IH. reflexivity.
Qed.

Lemma loop_app pre post totals :
  fetch_languages_loop gh_get (pre ++ post) totals
  = fetch_languages_loop gh_get post
      (fetch_languages_loop gh_get pre totals).
Proof. rewrite !loop_fold, map_app, fold_left_app. reflexivity. Qed.

Lemma skip_repo pre r post :
  contribution gh_get r = [] ->
  fetch_languages_for_repos gh_get (pre ++ r :: post)
  = fetch_languages_for_repos gh_get (pre ++ post).
Proof.
  intros H. unfold fetch_languages_for_repos.
  rewrite !loop_app, loop_step, H. reflexivity.
Qed.

Lemma loop_bytes repos totals lang :
  get_or (fetch_languages_loop gh_get repos totals) lang 0%N
  = (get_or totals lang 0
     + Nsum (List.map (fun r => bytes_of (contribution gh_get r) lang) repos))%N.
Proof.
  revert totals. induction repos as [|r rest IH]; intros totals.
  - simpl. lia.
  - rewrite loop_step, IH, add_languages_bytes. simpl. lia.
Qed.
End WithNetwork.
End AggregatorFacts.

Module ActivityFacts.

Lemma scan_commits_spec repo_name cs commits limit :
  (Z.of_nat (List.length commits) < limit)%Z ->
  let all := (commits ++ List.map (make_ref repo_name) cs)%list in
  match scan_commits repo_name cs commits limit with
  | inl done =>
      done = firstn (Z.to_nat limit) all
      /\ (limit <= Z.of_nat (List.length all))%Z
  | inr rest =>
      rest = all /\ (Z.of_nat (List.length all) < limit)%Z
  end.
Proof.
  revert commits. induction cs as [|c cs IH]; intros commits Hlt; simpl.
  - rewrite app_nil_r. split; [reflexivity | exact Hlt].
  - destruct (Z.geb_spec (Z.of_nat (List.length (commits ++ [make_ref repo_name c]))) limit)
      as [Hge|Hlt'].
    + rewrite length_app in Hge. simpl in Hge.
      split.
      * replace (commits ++ make_ref repo_name c :: List.map (make_ref repo_name) cs)%list
          with ((commits ++ [make_ref repo_name c])
                ++ List.map (make_ref repo_name) cs)%list
          by (rewrite <- app_assoc; reflexivity).
        rewrite firstn_app.
        replace (Z.to_nat limit - List.length (commits ++ [make_ref repo_name c]))%nat
          with 0%nat by (rewrite length_app; simpl; lia).
        rewrite firstn_O, app_nil_r, firstn_all2; [reflexivity|].
        rewrite length_app. simpl. lia.
      * rewrite length_app. simpl. lia.
    + specialize (IH (commits ++ [make_ref repo_name c])%list Hlt').
      rewrite <- app_assoc in IH. exact IH.
Qed.

Lemma scan_events_spec events commits limit :
  (Z.of_nat (List.length commits) < limit)%Z ->
  scan_events events commits limit
  = firstn (Z.to_nat limit) (commits ++ push_commits events).
Proof.
  revert commits. induction events as [|ev rest IH]; intros commits Hlt.
  - simpl. rewrite app_nil_r, firstn_all2; [reflexivity | lia].
  - cbn [scan_events push_commits flat_map]. fold (push_commits rest).
    fold (is_push ev). destruct (is_push ev); cbn [negb].
    + pose proof (scan_commits_spec (ev_repo_name ev) (ev_commits ev)
                    commits limit Hlt) as H. cbv zeta in H.
      destruct (scan_commits (ev_repo_name ev) (ev_commits ev) commits limit)
        as [done|commits'].
      * destruct H as [-> Hlen].
        rewrite app_assoc,
          (firstn_app (Z.to_nat limit)
             (commits ++ List.map (make_ref (ev_repo_name ev)) (ev_commits ev))).
        replace (Z.to_nat limit
                 - List.length (commits ++ List.map (make_ref (ev_repo_name ev))
                                            (ev_commits ev)))%nat
          with 0%nat by lia.
        now rewrite firstn_O, app_nil_r.
      * destruct H as [-> Hlen]. rewrite IH by exact Hlen.
        now rewrite app_assoc.
    + now apply IH.
Qed.

Lemma scan_events_from_empty events limit :
  (1 <= limit)%Z ->
  scan_events events [] limit = firstn (Z.to_nat limit) (push_commits events).
Proof. intros H. apply (scan_events_spec events []). simpl. lia. Qed.
(** A feed without push events yields nothing, whatever the limit. *)
Lemma scan_events_no_push events commits limit :
  forallb (fun ev => negb (is_push ev)) events = true ->
  scan_events events commits limit = commits.
Proof.
  induction events as [|ev rest IH]; simpl; intros H; [reflexivity|].
  apply andb_true_iff in H. destruct H as [H1 H2].
  rewrite H1. now apply IH.
Qed.
End ActivityFacts.

(* ================================================================== *)
(** ** Facts about the document builder and the image resolver *)

Module BuilderFacts.

Lemma all_str_ok items :
  forallb is_str items = true -> all_str items = Ok (List.map as_str items).
Proof.
  induction items as [|v items IH]; simpl; [reflexivity|].
  destruct v; simpl; try discriminate. intros H. now rewrite IH.
Qed.

Lemma forallb_map_VStr l : forallb is_str (List.map VStr l) = true.
Proof. induction l; simpl; auto. Qed.

Lemma as_str_map_VStr l : List.map as_str (List.map VStr l) = l.
Proof. induction l; simpl; congruence. Qed.

Lemma py_strip_typed cfg k default :
  str_or_absent cfg k = true ->
  py_strip (get_or cfg k (VStr default))
  = Ok (strip (as_str (get_or cfg k (VStr default)))).
Proof.
  unfold str_or_absent, get_or. destruct (lookup cfg k) as [[| | |s]|];
    simpl; try discriminate; reflexivity.
Qed.

Lemma bio_lines_typed cfg :
  str_or_falsy cfg (lit "bio_code") = true ->
  forallb is_str (bio_lines (get_or cfg (lit "bio_code") (VStr []))) = true.
Proof.
  unfold str_or_falsy, get_or, bio_lines.
  destruct (lookup cfg (lit "bio_code")) as [v|]; [|reflexivity].
  destruct v as [| b | z | s]; simpl.
  - reflexivity.
  - destruct b; simpl; [discriminate | reflexivity].
  - destruct (z =? 0)%Z; simpl; [reflexivity | discriminate].
  - destruct s; reflexivity.
Qed.

Lemma image_lines_str v : forallb is_str (image_lines v) = true.
Proof. unfold image_lines. destruct (truthy v); reflexivity. Qed.

Lemma badge_lines_str cfg stats linkedin :
  forallb is_str (badge_lines cfg stats linkedin) = true.
Proof.
  unfold badge_lines. rewrite forallb_app.
  destruct linkedin, (cards_of cfg stats); reflexivity.
Qed.

Lemma activity_lines_str commits :
  forallb is_str (activity_lines commits) = true.
Proof.
  unfold activity_lines. destruct commits as [|c cs]; [reflexivity|].
  cbn [forallb is_str andb]. rewrite forallb_app.
  rewrite <- (map_map commit_line VStr), forallb_map_VStr. reflexivity.
Qed.

Lemma build_readme_typed cfg stats lang commits ts :
  str_or_absent cfg (lit "linkedin_url") = true ->
  str_or_falsy cfg (lit "bio_code") = true ->
  build_readme cfg stats lang commits ts
  = Ok (join nl (List.map as_str (readme_lines cfg stats lang commits ts))).
Proof.
  intros Hl Hb. unfold build_readme.
  rewrite (py_strip_typed cfg _ [] Hl). cbn [bind].
  unfold py_join. fold (readme_lines cfg stats lang commits ts).
  rewrite all_str_ok; [reflexivity|].
  unfold readme_lines. rewrite !forallb_app.
  rewrite image_lines_str, (bio_lines_typed cfg Hb), badge_lines_str,
    activity_lines_str, forallb_map_VStr. reflexivity.
Qed.

Lemma build_readme_untyped_linkedin cfg stats lang commits ts :
  str_or_absent cfg (lit "linkedin_url") = false ->
  build_readme cfg stats lang commits ts = Raise AttributeError.
Proof.
  unfold str_or_absent, build_readme, get_or.
  destruct (lookup cfg (lit "linkedin_url")) as [[| | |s]|]; simpl;
    try discriminate; reflexivity.
Qed.

Lemma readme_cfg_linkedin cfg username badge gif :
  lookup (readme_cfg cfg username badge gif) (lit "linkedin_url")
  = Some (get cfg (lit "linkedin_url")).
Proof. reflexivity. Qed.

(** Whenever the [linkedin_url] of the loaded configuration is missing
    or holds [None], a bool or an int, the dictionary assembled by [main]
    makes [build_readme] raise. *)
Lemma main_cfg_raises cfg username badge gif stats lang commits ts :
  is_str (get cfg (lit "linkedin_url")) = false ->
  build_readme (readme_cfg cfg username badge gif) stats lang commits ts
  = Raise AttributeError.
Proof.
  intros H. apply build_readme_untyped_linkedin.
  unfold str_or_absent. now rewrite readme_cfg_linkedin.
Qed.
End BuilderFacts.

Module ResolverFacts.
Section WithFiles.
Variable ROOT : pystr.
Variable os_path_exists : pystr -> bool.

Lemma find_gif_url_typed cfg username ext path br :
  get_or cfg (lit "external_gif_url") (VStr []) = VStr ext ->
  get_or cfg (lit "gif_path") (VStr []) = VStr path ->
  get_or cfg (lit "branch_name") (VStr (lit "Main")) = VStr br ->
  find_gif_url ROOT os_path_exists cfg username
  = Ok (match strip ext with
        | _ :: _ => strip ext
        | [] =>
            match strip path with
            | [] => []
            | _ :: _ =>
                if os_path_exists (os_path_join ROOT (strip path))
                then replace_char BACKSLASH [SLASH] (strip path)
                else raw_url username
                       (str_or (strip br) (lit "Main"))
                       (strip path)
            end
        end).
Proof.
  intros He Hp Hb. unfold find_gif_url. rewrite He, Hp, Hb. cbn [py_strip bind].
  destruct (strip ext); [|reflexivity].
  destruct (strip path); [reflexivity|].
  destruct (os_path_exists _); reflexivity.
Qed.
End WithFiles.
End ResolverFacts.

(* ================================================================== *)
(** ** Worked examples *)

Module Examples.
Import Samples.

(** On every share [b / total] with [total <= 40], the float percentage and
    the argument of [round] in [progress_bar] are the numbers that the
    Standard Library's IEEE 754 operations give. *)
Example rounding_agrees_with_ieee754 :
  forallb (fun p => agrees_with_b64 (fst p) (snd p)) (shares_up_to 40) = true.
Proof. vm_compute. reflexivity. Qed.

(** The specification's table for 75 and 25 bytes: 75.0% with 15 full
    blocks, 25.0% with 5. *)
Example two_langs_table :
  build_language_section two_langs
  = Ok (join nl
          [lit "| Language | % | Progress |";
           lit "|---:|:---:|:---|";
           lit "| A | 75.0% | " ++ repeat BLOCK_FULL 15
             ++ repeat BLOCK_LIGHT 5 ++ lit " |";
           lit "| B | 25.0% | " ++ repeat BLOCK_FULL 5
             ++ repeat BLOCK_LIGHT 15 ++ lit " |"] ++ nl).
Proof. vm_compute. reflexivity. Qed.

(** A product half-way between two integers goes to the even one: one
    eighth of the bytes is 12.5%, [round(2.5)] is 2; three eighths are
    37.5%, [round(7.5)] is 8. *)
Example half_way_products :
  (pct_of 1 8 == 25 # 2)%Q /\ filled_of (pct_of 1 8) = 2%Z
  /\ (pct_of 3 8 == 75 # 2)%Q /\ filled_of (pct_of 3 8) = 8%Z.
Proof. vm_compute. repeat split; reflexivity. Qed.

(** A tie keeps the order of the input: A stays ahead of C. *)
Example tied_langs_order :
  ordered_items tied_langs
  = [(lit "B", 75%N); (lit "A", 25%N); (lit "C", 25%N)].
Proof. reflexivity. Qed.

Example zero_totals_sentinel :
  build_language_section zero_totals = Ok NO_LANGUAGE_DATA.
Proof. reflexivity. Qed.

(** Three push events of two commits each and a limit of 5: the five
    references are the first five commits, the last one being the first
    commit of the third event. *)
Example three_pushes_limit_5 :
  fetch_recent_commits (feed_of three_pushes) octocat 5
  = List.map (fun p => make_ref (VStr (lit (fst p))) (commit_of (snd p)))
      [("octocat/one", "a1"); ("octocat/one", "a2"); ("octocat/two", "b1");
       ("octocat/two", "b2"); ("octocat/three", "c1")]%string.
Proof. reflexivity. Qed.

(** A feed without push events gives no reference. *)
Example no_push_events :
  fetch_recent_commits (feed_of [watch_event]) octocat 5 = [].
Proof. reflexivity. Qed.

(** One fork and one repository of the user's own: only the latter counts. *)
Example fork_left_out :
  fetch_languages_for_repos languages_api [fork_repo; own_repo]
  = [(lit "Python", 120%N); (lit "Shell", 30%N)].
Proof. reflexivity. Qed.

(** A failing fetch in the middle leaves the other repositories counted. *)
Example broken_left_out :
  fetch_languages_for_repos languages_api [own_repo; broken_repo; own_repo]
  = [(lit "Python", 240%N); (lit "Shell", 60%N)].
Proof. reflexivity. Qed.

(** [build_readme] on a configuration whose optional entries are all
    strings. *)
Example full_cfg_builds :
  exists doc,
    build_readme full_cfg (stats_img_urls_of octocat) NO_LANGUAGE_DATA []
      timestamp = Ok doc.
Proof. eexists. reflexivity. Qed.

End Examples.

(* ================================================================== *)
(** ** The properties of the specification *)

Import Float FloatFacts RnFacts PercentFacts BarFacts.
Import DictFacts SortFacts SumFacts.
Import RendererFacts AggregatorFacts ActivityFacts BuilderFacts ResolverFacts.

Lemma distinct_NoDup l : distinct l = true -> NoDup l.
Proof.
  induction l as [|s l IH]; simpl; intros H; [constructor|].
  apply andb_true_iff in H. destruct H as [H1 H2].
  constructor; [|now apply IH].
  intros Hin. apply negb_true_iff in H1.
  assert (E : existsb (str_eqb s) l = true).
  { apply existsb_exists. exists s. split; [exact Hin | apply str_eqb_refl]. }
  congruence.
Qed.

Lemma Forall2_map_r {A B} (f : A -> B) (P : A -> B -> Prop) l :
  (forall x, In x l -> P x (f x)) -> Forall2 P l (List.map f l).
Proof.
  induction l as [|x l IH]; intros H; simpl; constructor.
  - apply H. now left.
  - apply IH. intros y Hy. apply H. now right.
Qed.

Lemma map_combine_map {A B C} (f : A -> B) (g : A * B -> C) l :
  List.map g (combine l (List.map f l)) = List.map (fun x => g (x, f x)) l.
Proof. induction l as [|x l IH]; simpl; congruence. Qed.

(** *** C1 *)

(** C1 (defect in the code).  [build_readme] is specified as total, also
    when optional entries are absent or null.  On the dictionary that
    [main] builds from a configuration file without a [linkedin_url] entry
    (so that the entry is [None]), it raises [AttributeError] instead of
    returning a document: [cfg.get("linkedin_url", "")] yields [None],
    which has no [strip]. *)
Theorem build_readme_raises_without_linkedin :
  build_readme
    (readme_cfg Samples.minimal_config Samples.octocat
       Samples.octocat_badge [])
    (stats_img_urls_of Samples.octocat) NO_LANGUAGE_DATA []
    Samples.timestamp
  = Raise AttributeError.
Proof. reflexivity. Qed.

(** *** C2 *)

(** C2, as stated, fails: six languages of equal size are each rendered as
    16.7%, and the six rendered percentages add up to 100.2, which is more
    than 0.1 away from 100.0. *)
Lemma rendered_sum_of_six_equal :
  NoDup (keys Samples.six_equal)
  /\ (0 < sum_values Samples.six_equal)%N
  /\ exists pcts,
       row_percents Samples.six_equal = Ok pcts
       /\ List.map Float.tenths pcts = [167; 167; 167; 167; 167; 167]%Z
       /\ Qsum (List.map Float.rendered pcts) == 1002 # 10
       /\ ~ Qabs (Qsum (List.map Float.rendered pcts) - 100) <= 1 # 10.
Proof.
  split; [apply distinct_NoDup; reflexivity|].
  split; [reflexivity|].
  eexists. split; [vm_compute; reflexivity|].
  split; [vm_compute; reflexivity|].
  split; [vm_compute; reflexivity|].
  intros H. apply Qabs_Qle_condition in H. destruct H as [_ H].
  vm_compute in H. apply H. reflexivity.
Qed.

(** C2 (amended).  For every language-totals mapping with a positive total,
    the renderer returns a table whose rows carry the percentages
    [row_percents], and the sum of these percentages as rendered to one
    decimal differs from 100.0 by at most 0.05 (plus a floating-point
    error below 3e-14) per row. *)
Theorem rendered_percentages_sum_near_100 (lang_totals : dict N) :
  NoDup (keys lang_totals) ->
  (0 < sum_values lang_totals)%N ->
  exists pcts,
    row_percents lang_totals = Ok pcts
    /\ build_language_section lang_totals
       = Ok (join nl
               (TABLE_HEAD
                ++ List.map (fun p => row_text (fst (fst p)) (snd p))
                     (combine (ordered_items lang_totals) pcts)) ++ nl)%list
    /\ List.length pcts = List.length lang_totals
    /\ Qabs (Qsum (List.map Float.rendered pcts) - 100)
       <= inject_Z (Z.of_nat (List.length lang_totals))
          * ((1 # 20) + (1 # 35184372088832)).
Proof.
  intros Hk Ht.
  exists (List.map (fun kv => pct_of (snd kv) (sum_values lang_totals))
            (ordered_items lang_totals)).
  split; [now apply row_percents_eq|].
  split.
  - rewrite (build_language_section_eq lang_totals Ht).
    now rewrite map_combine_map.
  - split.
    + rewrite length_map.
      apply Permutation_length. now apply ordered_items_perm.
    + rewrite map_map. now apply rendered_sum_near.
Qed.

Lemma rendered_percentages_sum_near_100_witness :
  NoDup (keys Samples.two_langs)
  /\ (0 < sum_values Samples.two_langs)%N
  /\ exists pcts,
       row_percents Samples.two_langs = Ok pcts
       /\ build_language_section Samples.two_langs
          = Ok (join nl
                  (TABLE_HEAD
                   ++ List.map (fun p => row_text (fst (fst p)) (snd p))
                        (combine (ordered_items Samples.two_langs) pcts))
                ++ nl)%list
       /\ List.length pcts = List.length Samples.two_langs
       /\ Qabs (Qsum (List.map Float.rendered pcts) - 100)
          <= inject_Z (Z.of_nat (List.length Samples.two_langs))
             * ((1 # 20) + (1 # 35184372088832)).
Proof.
  assert (Hk : NoDup (keys Samples.two_langs))
    by (apply distinct_NoDup; reflexivity).
  assert (Ht : (0 < sum_values Samples.two_langs)%N) by reflexivity.
  split; [exact Hk|]. split; [exact Ht|].
  exact (rendered_percentages_sum_near_100 Samples.two_langs Hk Ht).
Defined.

(** *** C5 *)

(** C5.  For every language-totals mapping with a positive total, every
    row of the table ends in a bar of exactly 20 glyphs: [filled] full
    blocks followed by [20 - filled] light ones, where [filled], written
    [filled_of pct], is [round(pct / 100 * 20)].  The rounding is pinned
    down without its function: [filled] is an integer at most one half
    away from the product the floats compute, and the even one when the
    product lies half-way between two integers (Python's [round]).  The
    product is within [2^-47] of [pct / 100 * 20], the percentage [pct]
    of the row within [2^-45] of a hundred times the exact share, and
    [filled] lies between 0 and 20. *)
Theorem bars_have_20_glyphs (lang_totals : dict N) :
  NoDup (keys lang_totals) ->
  (0 < sum_values lang_totals)%N ->
  exists rows,
    build_language_section lang_totals
    = Ok (join nl (TABLE_HEAD ++ rows) ++ nl)%list
    /\ Forall2
         (fun kv row =>
            exists pct bar,
              percent (snd kv) (sum_values lang_totals) = Ok pct
              /\ row = (lit "| " ++ fst kv ++ lit " | "
                        ++ (Float.format_1f pct ++ lit "%") ++ lit " | "
                        ++ bar ++ lit " |")%list
              /\ bar = progress_bar pct 20
              /\ filled_of pct
                 = Float.py_round
                     (Float.mul (Float.div pct 100)
                                (Float.rn (inject_Z 20)))
              /\ nearest_even (filled_of pct)
                   (Float.mul (Float.div pct 100) (Float.rn (inject_Z 20)))
              /\ (Qabs (Float.mul (Float.div pct 100)
                                  (Float.rn (inject_Z 20))
                        - pct / 100 * 20)
                  <= 1 # 140737488355328)%Q
              /\ (Qabs (pct - share (snd kv) (sum_values lang_totals) * 100)
                  <= 1 # 35184372088832)%Q
              /\ (0 <= filled_of pct <= 20)%Z
              /\ bar = (repeat BLOCK_FULL (Z.to_nat (filled_of pct))
                        ++ repeat BLOCK_LIGHT
                             (Z.to_nat (20 - filled_of pct)))%list
              /\ List.length bar = 20%nat)
         (ordered_items lang_totals) rows.
Proof.
  intros Hk Ht.
  exists (List.map (fun kv => row_text (fst kv)
                                (pct_of (snd kv) (sum_values lang_totals)))
            (ordered_items lang_totals)).
  split; [now apply build_language_section_eq|].
  apply Forall2_map_r. intros kv Hin.
  pose proof (ordered_items_bound lang_totals kv Hk Hin) as Hb.
  pose proof (pct_range _ _ Hb Ht) as Hp.
  exists (pct_of (snd kv) (sum_values lang_totals)),
         (progress_bar (pct_of (snd kv) (sum_values lang_totals)) 20).
  split; [now apply percent_eq|].
  split; [reflexivity|]. split; [reflexivity|].
  split; [reflexivity|].
  split; [apply filled_of_nearest|].
  split; [exact (bar_arg_near _ Hp)|].
  split; [exact (pct_near _ _ Hb Ht)|].
  split; [exact (filled_range _ Hp)|].
  split; [apply progress_bar_20 | now apply progress_bar_length].
Qed.

Lemma bars_have_20_glyphs_witness :
  NoDup (keys Samples.tied_langs)
  /\ (0 < sum_values Samples.tied_langs)%N
  /\ exists rows,
       build_language_section Samples.tied_langs
       = Ok (join nl (TABLE_HEAD ++ rows) ++ nl)%list
       /\ Forall2
            (fun kv row =>
               exists pct bar,
                 percent (snd kv) (sum_values Samples.tied_langs) = Ok pct
                 /\ row = (lit "| " ++ fst kv ++ lit " | "
                           ++ (Float.format_1f pct ++ lit "%") ++ lit " | "
                           ++ bar ++ lit " |")%list
                 /\ bar = progress_bar pct 20
                 /\ filled_of pct
                    = Float.py_round
                        (Float.mul (Float.div pct 100)
                                   (Float.rn (inject_Z 20)))
                 /\ nearest_even (filled_of pct)
                      (Float.mul (Float.div pct 100)
                                 (Float.rn (inject_Z 20)))
                 /\ (Qabs (Float.mul (Float.div pct 100)
                                     (Float.rn (inject_Z 20))
                           - pct / 100 * 20)
                     <= 1 # 140737488355328)%Q
                 /\ (Qabs (pct - share (snd kv)
                                   (sum_values Samples.tied_langs) * 100)
                     <= 1 # 35184372088832)%Q
                 /\ (0 <= filled_of pct <= 20)%Z
                 /\ bar = (repeat BLOCK_FULL (Z.to_nat (filled_of pct))
                           ++ repeat BLOCK_LIGHT
                                (Z.to_nat (20 - filled_of pct)))%list
                 /\ List.length bar = 20%nat)
            (ordered_items Samples.tied_langs) rows.
Proof.
  assert (Hk : NoDup (keys Samples.tied_langs))
    by (apply distinct_NoDup; reflexivity).
  assert (Ht : (0 < sum_values Samples.tied_langs)%N) by reflexivity.
  split; [exact Hk|]. split; [exact Ht|].
  exact (bars_have_20_glyphs Samples.tied_langs Hk Ht).
Defined.

(** *** C6 *)

(** C6.  For every language-totals mapping whose byte counts add up to 0,
    the empty mapping included, the renderer returns exactly the sentinel
    "No language data available." followed by a newline.  A division by
    that total would raise [ZeroDivisionError]; the sentinel is returned,
    so none is evaluated. *)
Theorem sentinel_for_zero_total (lang_totals : dict N) :
  sum_values lang_totals = 0%N ->
  build_language_section lang_totals
  = Ok (lit "No language data available." ++ nl)%list
  /\ forall b, percent b (sum_values lang_totals) = Raise ZeroDivisionError.
Proof.
  intros H. unfold build_language_section, percent, Float.truediv.
  rewrite H. split; [reflexivity | intros b; reflexivity].
Qed.

Lemma sentinel_for_zero_total_witness :
  sum_values (@nil (pystr * N)) = 0%N
  /\ build_language_section []
     = Ok (lit "No language data available." ++ nl)%list
  /\ forall b, percent b (sum_values (@nil (pystr * N)))
               = Raise ZeroDivisionError.
Proof.
  split; [reflexivity|].
  exact (sentinel_for_zero_total [] eq_refl).
Defined.

(** *** C7 *)

(** C7.  For every language-totals mapping with a positive total, the rows
    of the table are the rows of the mapping's items rearranged so that
    byte counts never increase from one row to the next, and the items
    that share a byte count keep the order they have in the mapping. *)
Theorem rows_sorted_descending_stable (lang_totals : dict N) :
  NoDup (keys lang_totals) ->
  (0 < sum_values lang_totals)%N ->
  exists rows,
    build_language_section lang_totals
    = Ok (join nl (TABLE_HEAD ++ rows) ++ nl)%list
    /\ Forall2
         (fun kv row => language_row (sum_values lang_totals) kv = Ok row)
         (ordered_items lang_totals) rows
    /\ Permutation (ordered_items lang_totals) lang_totals
    /\ StronglySorted by_bytes_desc (ordered_items lang_totals)
    /\ forall n, filter (has_bytes n) (ordered_items lang_totals)
                 = filter (has_bytes n) lang_totals.
Proof.
  intros Hk Ht.
  exists (List.map (fun kv => row_text (fst kv)
                                (pct_of (snd kv) (sum_values lang_totals)))
            (ordered_items lang_totals)).
  split; [now apply build_language_section_eq|].
  split.
  { apply Forall2_map_r. intros kv _. now apply language_row_eq. }
  split; [now apply ordered_items_perm|].
  rewrite (ordered_items_sorted lang_totals Hk).
  split; [apply sorted_desc_sorted | intros n; apply sorted_desc_stable].
Qed.

Lemma rows_sorted_descending_stable_witness :
  NoDup (keys Samples.tied_langs)
  /\ (0 < sum_values Samples.tied_langs)%N
  /\ exists rows,
       build_language_section Samples.tied_langs
       = Ok (join nl (TABLE_HEAD ++ rows) ++ nl)%list
       /\ Forall2
            (fun kv row =>
               language_row (sum_values Samples.tied_langs) kv = Ok row)
            (ordered_items Samples.tied_langs) rows
       /\ Permutation (ordered_items Samples.tied_langs) Samples.tied_langs
       /\ StronglySorted by_bytes_desc (ordered_items Samples.tied_langs)
       /\ forall n, filter (has_bytes n) (ordered_items Samples.tied_langs)
                    = filter (has_bytes n) Samples.tied_langs.
Proof.
  assert (Hk : NoDup (keys Samples.tied_langs))
    by (apply distinct_NoDup; reflexivity).
  assert (Ht : (0 < sum_values Samples.tied_langs)%N) by reflexivity.
  split; [exact Hk|]. split; [exact Ht|].
  exact (rows_sorted_descending_stable Samples.tied_langs Hk Ht).
Defined.

(** *** C3 *)

(** For a limit of at least 1, the fetcher returns the first [limit]
    commits of the push events of the feed, in feed order, and so at most
    [limit] of them; a failing feed gives the empty list. *)
Lemma fetch_recent_commits_prefix gh username limit events :
  (1 <= limit)%Z ->
  gh (events_url username) = Ok events ->
  fetch_recent_commits gh username limit
  = firstn (Z.to_nat limit) (push_commits events)
  /\ (Z.of_nat (List.length (fetch_recent_commits gh username limit))
      <= limit)%Z.
Proof.
  intros Hl Hg. unfold fetch_recent_commits. rewrite Hg.
  rewrite (scan_events_from_empty events limit Hl).
  split; [reflexivity|].
  pose proof (firstn_le_length (Z.to_nat limit) (push_commits events)). lia.
Qed.

(** C3 (defect in the code).  The fetcher is to return at most N commit
    references for every limit N.  With a limit of 0 and a feed holding
    one push event with one commit it returns that commit: the length is
    compared with the limit only after a reference has been appended. *)
Theorem fetch_recent_commits_limit_zero :
  fetch_recent_commits (Samples.feed_of Samples.one_push) Samples.octocat 0
  = [make_ref (VStr (lit "octocat/one")) (Samples.commit_of "a1")]
  /\ List.length
       (fetch_recent_commits (Samples.feed_of Samples.one_push)
          Samples.octocat 0) = 1%nat.
Proof. split; reflexivity. Qed.

(** *** C4 *)

(** C4, as stated, fails: a configured external URL with a leading space
    is not returned verbatim, it is returned without the space. *)
Lemma find_gif_url_external_not_verbatim :
  lookup Samples.padded_external_cfg (lit "external_gif_url")
  = Some (VStr (lit " https://example.com/a.gif"))
  /\ find_gif_url (lit ".") Samples.no_files Samples.padded_external_cfg
       Samples.octocat
     = Ok (lit "https://example.com/a.gif")
  /\ find_gif_url (lit ".") Samples.no_files Samples.padded_external_cfg
       Samples.octocat
     <> Ok (lit " https://example.com/a.gif").
Proof.
  split; [reflexivity|]. split; [reflexivity|].
  intros H. vm_compute in H. discriminate H.
Qed.

(** C4 (amended).  For every configuration whose [external_gif_url],
    [gif_path] and [branch_name] entries are each missing or a string, and
    every user name, with surrounding whitespace stripped from the three
    settings: a non-empty external URL is returned, whatever the other
    settings; else an empty path gives the empty string; else, when a file
    exists at the path under the project root, the path is returned with
    backslashes turned into slashes; else the raw-content URL built from
    the user name (twice), the branch ("Main" when blank) and the path is
    returned. *)
Theorem find_gif_url_priority root os_path_exists cfg username ext path br :
  get_or cfg (lit "external_gif_url") (VStr []) = VStr ext ->
  get_or cfg (lit "gif_path") (VStr []) = VStr path ->
  get_or cfg (lit "branch_name") (VStr (lit "Main")) = VStr br ->
  (strip ext <> [] ->
   find_gif_url root os_path_exists cfg username = Ok (strip ext))
  /\ (strip ext = [] -> strip path <> [] ->
      os_path_exists (os_path_join root (strip path)) = true ->
      find_gif_url root os_path_exists cfg username
      = Ok (replace_char BACKSLASH [SLASH] (strip path)))
  /\ (strip ext = [] -> strip path <> [] ->
      os_path_exists (os_path_join root (strip path)) = false ->
      find_gif_url root os_path_exists cfg username
      = Ok (lit "https://raw.githubusercontent.com/" ++ py_str username
            ++ lit "/" ++ py_str username ++ lit "/"
            ++ str_or (strip br) (lit "Main") ++ lit "/" ++ strip path)%list)
  /\ (strip ext = [] -> strip path = [] ->
      find_gif_url root os_path_exists cfg username = Ok []).
Proof.
  intros He Hp Hb.
  rewrite (find_gif_url_typed root os_path_exists cfg username ext path br
             He Hp Hb).
  repeat split.
  - intros H. destruct (strip ext); [contradiction | reflexivity].
  - intros H1 H2 H3. rewrite H1, H3.
    destruct (strip path); [contradiction | reflexivity].
  - intros H1 H2 H3. rewrite H1, H3.
    destruct (strip path); [contradiction | reflexivity].
  - intros H1 H2. rewrite H1, H2. reflexivity.
Qed.

Lemma find_gif_url_priority_witness :
  find_gif_url (lit ".") Samples.no_files Samples.gif_cfg Samples.octocat
  = Ok (lit "https://raw.githubusercontent.com/octocat/octocat/main/assets/coder.gif")
  /\ find_gif_url (lit ".") Samples.all_files Samples.gif_cfg Samples.octocat
     = Ok (lit "assets/coder.gif").
Proof.
  split.
  - apply (find_gif_url_priority (lit ".") Samples.no_files Samples.gif_cfg
             Samples.octocat [] (lit "assets/coder.gif") (lit "main")
             eq_refl eq_refl eq_refl).
    + reflexivity.
    + discriminate.
    + reflexivity.
  - apply (find_gif_url_priority (lit ".") Samples.all_files Samples.gif_cfg
             Samples.octocat [] (lit "assets/coder.gif") (lit "main")
             eq_refl eq_refl eq_refl).
    + reflexivity.
    + discriminate.
    + reflexivity.
Defined.

(** *** C8 *)

(** Repositories that contribute nothing can be left out of the listing. *)
Lemma fetch_languages_filter gh (keep : repo -> bool) repos :
  (forall r, keep r = false -> contribution gh r = []) ->
  fetch_languages_for_repos gh repos
  = fetch_languages_for_repos gh (filter keep repos).
Proof.
  intros H. unfold fetch_languages_for_repos. generalize (@nil (pystr * N)).
  induction repos as [|r rest IH]; intros totals; [reflexivity|].
  cbn [filter]. destruct (keep r) eqn:E.
  - rewrite !loop_step. apply IH.
  - rewrite loop_step, (H r E). apply IH.
Qed.

(** C8.  Whatever the repositories and whatever the network answers, the
    aggregator returns totals (it cannot fail), and for every language the
    total is the sum of what the repositories contribute, where a fork and
    a repository whose fetch failed contribute nothing: the result is the
    same as on the listing without the forks, and the same as on the
    listing without the repositories whose fetch fails. *)
Theorem fetch_languages_best_effort gh repos :
  (forall lang,
     get_or (fetch_languages_for_repos gh repos) lang 0%N
     = Nsum (List.map (fun r => bytes_of (contribution gh r) lang) repos))
  /\ fetch_languages_for_repos gh repos
     = fetch_languages_for_repos gh
         (filter (fun r => negb (truthy (get r (lit "fork")))) repos)
  /\ fetch_languages_for_repos gh repos
     = fetch_languages_for_repos gh
         (filter (fun r => match gh (get r (lit "languages_url")) with
                           | Ok _ => true
                           | Raise _ => false
                           end) repos).
Proof.
  split; [|split].
  - intros lang. unfold fetch_languages_for_repos.
    rewrite loop_bytes. reflexivity.
  - apply fetch_languages_filter. intros r H. unfold contribution.
    apply negb_false_iff in H. now rewrite H.
  - apply fetch_languages_filter. intros r H. unfold contribution.
    destruct (truthy (get r (lit "fork"))); [reflexivity|].
    destruct (negb (truthy (get r (lit "languages_url")))); [reflexivity|].
    destruct (gh (get r (lit "languages_url"))); [discriminate | reflexivity].
Qed.

(** One fork with 900 bytes of C and one own repository: the totals hold
    the own repository's bytes and no C. *)
Lemma fetch_languages_best_effort_witness :
  get_or (fetch_languages_for_repos Samples.languages_api
            [Samples.fork_repo; Samples.own_repo]) (lit "C") 0%N = 0%N
  /\ get_or (fetch_languages_for_repos Samples.languages_api
               [Samples.fork_repo; Samples.own_repo]) (lit "Python") 0%N
     = 120%N.
Proof.
  split.
  - exact (proj1 (fetch_languages_best_effort Samples.languages_api
                    [Samples.fork_repo; Samples.own_repo]) (lit "C")).
  - exact (proj1 (fetch_languages_best_effort Samples.languages_api
                    [Samples.fork_repo; Samples.own_repo]) (lit "Python")).
Defined.

(** *** C9 *)

(** When the fetch of the event feed fails, the fetcher returns the
    empty list, for every user name and limit; and on that list the
    builder, given a configuration on which it returns at all
    ([linkedin_url] a string or missing, [bio_code] a string, falsy or
    missing), returns a document whose activity section is the heading
    followed by the placeholder "_No public commits found yet ...". *)
Lemma failed_feed_renders_placeholder
    gh username limit e cfg stats_img_urls lang_section_md last_updated :
  gh (events_url username) = Raise e ->
  str_or_absent cfg (lit "linkedin_url") = true ->
  str_or_falsy cfg (lit "bio_code") = true ->
  fetch_recent_commits gh username limit = []
  /\ exists before,
       build_readme cfg stats_img_urls lang_section_md
         (fetch_recent_commits gh username limit) last_updated
       = Ok (join nl
               (before
                ++ [lit "## Recent activity" ++ nl;
                    lit "_No public commits found yet " ++ [EM_DASH]
                      ++ lit " start committing!_" ++ nl;
                    lit "_Last updated: " ++ last_updated ++ lit " UTC_"
                      ++ nl]
                ++ FOOTER))%list.
Proof.
  intros Hg Hl Hb.
  assert (E : fetch_recent_commits gh username limit = []).
  { unfold fetch_recent_commits. now rewrite Hg. }
  split; [exact E|]. rewrite E.
  rewrite (build_readme_typed cfg stats_img_urls lang_section_md []
             last_updated Hl Hb).
  unfold readme_lines.
  exists (List.map as_str
            (title_lines (get_or cfg (lit "display_name")
                            (get cfg (lit "github_username")))
             ++ image_lines (get cfg (lit "gif_url"))
             ++ bio_lines (get_or cfg (lit "bio_code") (VStr []))
             ++ badge_lines cfg stats_img_urls
                  (strip (as_str (get_or cfg (lit "linkedin_url") (VStr []))))
             ++ language_lines lang_section_md)).
  rewrite !app_assoc, !map_app, as_str_map_VStr, <- !app_assoc.
  reflexivity.
Qed.

(** C9 (defect in the code, the one of C1).  The feed fails and the
    fetcher returns the empty list, as specified; but on the dictionary
    that [main] builds from a configuration file without a
    [linkedin_url] entry the builder then raises [AttributeError] instead
    of rendering the placeholder, and the run ends with the exception
    uncaught and no document. *)
Theorem failed_feed_then_builder_raises :
  Samples.feed_down (events_url Samples.octocat) = Raise RequestError
  /\ fetch_recent_commits Samples.feed_down Samples.octocat 5 = []
  /\ build_readme
       (readme_cfg Samples.minimal_config Samples.octocat
          Samples.octocat_badge [])
       (stats_img_urls_of Samples.octocat) NO_LANGUAGE_DATA
       (fetch_recent_commits Samples.feed_down Samples.octocat 5)
       Samples.timestamp
     = Raise AttributeError
  /\ main 2 Worlds.unlinked_feed_down
     = Some (Crashed (Uncaught AttributeError)).
Proof.
  split; [reflexivity|]. split; [reflexivity|]. split; [reflexivity|].
  vm_compute. reflexivity.
Qed.

(** *** C10 *)

(** C10.  A repository record whose ["languages_url"] entry is missing or
    the empty string is skipped, whatever the network would answer: the
    totals are those of the listing without the record. *)
Theorem repo_without_languages_url_skipped gh pre r post :
  lookup r (lit "languages_url") = None
  \/ lookup r (lit "languages_url") = Some (VStr []) ->
  fetch_languages_for_repos gh (pre ++ r :: post)
  = fetch_languages_for_repos gh (pre ++ post).
Proof.
  intros H. apply skip_repo. unfold contribution, get, get_or.
  destruct (truthy _); [reflexivity|].
  destruct H as [-> | ->]; reflexivity.
Qed.

Lemma repo_without_languages_url_skipped_witness :
  truthy (get Samples.bare_repo (lit "fork")) = false
  /\ lookup Samples.bare_repo (lit "languages_url") = None
  /\ Samples.generous_api (get Samples.bare_repo (lit "languages_url"))
     = Ok [(lit "C", 900%N)]
  /\ fetch_languages_for_repos Samples.generous_api
       ([Samples.own_repo] ++ Samples.bare_repo :: [Samples.own_repo])
     = fetch_languages_for_repos Samples.generous_api
         ([Samples.own_repo] ++ [Samples.own_repo]).
Proof.
  split; [reflexivity|]. split; [reflexivity|]. split; [reflexivity|].
  exact (repo_without_languages_url_skipped Samples.generous_api
           [Samples.own_repo] Samples.bare_repo [Samples.own_repo]
           (or_introl eq_refl)).
Defined.

(* ================================================================== *)
(** * Facts about the rest of the script *)

Module ReposFacts.
Section WithNetwork.
Variable gh_get : pystr -> nat -> result (list repo).

Lemma full_pages_tail url page p full :
  full_pages gh_get url page (p :: full) -> full_pages gh_get url (page + 1) full.
Proof.
  intros H i Hi. specialize (H (S i) ltac:(simpl; lia)).
  simpl in H. now replace (page + 1 + i)%nat with (page + S i)%nat by lia.
Qed.

Lemma fetch_repos_loop_short url full : forall page last repos fuel,
  full_pages gh_get url page full ->
  gh_get url (page + List.length full) = Ok last ->
  (List.length last < 100)%nat ->
  (List.length full < fuel)%nat ->
  fetch_repos_loop gh_get fuel url page repos
  = Some (Ok (repos ++ List.concat full ++ last)%list).
Proof.
  induction full as [|p full IH]; intros page last repos fuel Hf Hl Hs Hfuel.
  - destruct fuel as [|fuel]; [simpl in Hfuel; lia|].
    simpl in *. rewrite Nat.add_0_r in Hl. rewrite Hl.
    destruct last as [|r last]; [now rewrite app_nil_r|].
    apply Nat.ltb_lt in Hs. now rewrite Hs.
  - destruct fuel as [|fuel]; [simpl in Hfuel; lia|].
    destruct (Hf 0%nat ltac:(simpl; lia)) as [Hp Hlen]. simpl in Hp, Hlen.
    rewrite Nat.add_0_r in Hp. cbn [fetch_repos_loop]. rewrite Hp.
    destruct p as [|r p]; [simpl in Hlen; lia|].
    assert (E : (List.length (r :: p) <? 100)%nat = false)
      by (apply Nat.ltb_ge; exact Hlen).
    rewrite E.
    rewrite (IH (page + 1)%nat last (repos ++ r :: p)%list).
    + cbn [List.concat]. now rewrite <- !app_assoc.
    + now apply full_pages_tail in Hf.
    + simpl in Hl. now replace (page + 1 + List.length full)%nat
        with (page + S (List.length full))%nat by lia.
    + exact Hs.
    + simpl in Hfuel. lia.
Qed.

Lemma fetch_repos_loop_raise url full : forall page e repos fuel,
  full_pages gh_get url page full ->
  gh_get url (page + List.length full) = Raise e ->
  (List.length full < fuel)%nat ->
  fetch_repos_loop gh_get fuel url page repos = Some (Raise e).
Proof.
  induction full as [|p full IH]; intros page e repos fuel Hf Hl Hfuel.
  - destruct fuel as [|fuel]; [simpl in Hfuel; lia|].
    simpl in *. rewrite Nat.add_0_r in Hl. now rewrite Hl.
  - destruct fuel as [|fuel]; [simpl in Hfuel; lia|].
    destruct (Hf 0%nat ltac:(simpl; lia)) as [Hp Hlen]. simpl in Hp, Hlen.
    rewrite Nat.add_0_r in Hp. cbn [fetch_repos_loop]. rewrite Hp.
    destruct p as [|r p]; [simpl in Hlen; lia|].
    assert (E : (List.length (r :: p) <? 100)%nat = false)
      by (apply Nat.ltb_ge; exact Hlen).
    rewrite E. apply IH.
    + now apply full_pages_tail in Hf.
    + simpl in Hl. now replace (page + 1 + List.length full)%nat
        with (page + S (List.length full))%nat by lia.
    + simpl in Hfuel. lia.
Qed.

Lemma fetch_repos_loop_forever url : forall fuel page repos,
  (forall i, exists p, gh_get url (page + i) = Ok p
                       /\ (100 <= List.length p)%nat) ->
  fetch_repos_loop gh_get fuel url page repos = None.
Proof.
  induction fuel as [|fuel IH]; intros page repos H; [reflexivity|].
  destruct (H 0%nat) as [p [Hp Hlen]]. rewrite Nat.add_0_r in Hp.
  cbn [fetch_repos_loop]. rewrite Hp.
  destruct p as [|r p]; [simpl in Hlen; lia|].
  assert (E : (List.length (r :: p) <? 100)%nat = false)
    by (apply Nat.ltb_ge; exact Hlen).
  rewrite E. apply IH. intros i. destruct (H (S i)) as [q Hq].
  exists q. now replace (page + 1 + i)%nat with (page + S i)%nat by lia.
Qed.
End WithNetwork.
End ReposFacts.

Module MonoFacts.
Import Float FloatFacts RnFacts PercentFacts.
Local Open Scope Q_scope.

Lemma floor_log2_upper x : 0 < x -> x < two_pow (floor_log2 x + 1).
Proof.
  intros Hx. unfold floor_log2.
  set (k := (Z.log2 (Qnum x) - Z.log2 (Z.pos (Qden x)))%Z).
  destruct (Qle_bool (two_pow k) x) eqn:E.
  - assert (Hn : (0 < Qnum x)%Z).
    { destruct x as [n d]. unfold Qlt in Hx. simpl in *. lia. }
    pose proof (Z.log2_spec _ Hn) as [_ Hn2].
    pose proof (Z.log2_spec (Z.pos (Qden x)) ltac:(lia)) as [Hd1 _].
    pose proof (Z.log2_nonneg (Qnum x)) as Ha.
    pose proof (Z.log2_nonneg (Z.pos (Qden x))) as Hb.
    set (a := Z.log2 (Qnum x)) in *. set (b := Z.log2 (Z.pos (Qden x))) in *.
    replace (k + 1)%Z with ((a + 1) + - b)%Z by (unfold k; lia).
    rewrite two_pow_add, two_pow_opp, !two_pow_Z by lia.
    apply Qle_lt_trans with (inject_Z (Qnum x) / inject_Z (Zpos (Qden x)));
      [rewrite <- Q_as_fraction; apply Qle_refl|].
    assert (H1 : inject_Z (Qnum x) < inject_Z (2 ^ (a + 1)))
      by (rewrite <- Zlt_Qlt; lia).
    assert (H2 : inject_Z (2 ^ b) <= inject_Z (Z.pos (Qden x)))
      by (rewrite <- Zle_Qle; exact Hd1).
    assert (H3 : 0 < inject_Z (2 ^ b)).
    { change 0 with (inject_Z 0). rewrite <- Zlt_Qlt.
      apply Z.pow_pos_nonneg; lia. }
    assert (H4 : 0 < inject_Z (Z.pos (Qden x))) by reflexivity.
    assert (H5 : 0 < inject_Z (Qnum x)).
    { change 0 with (inject_Z 0). now rewrite <- Zlt_Qlt. }
    unfold Qdiv.
    apply Qle_lt_trans with (inject_Z (Qnum x) * / inject_Z (2 ^ b)).
    + apply Qmult_le_l; [exact H5|].
      apply Qle_shift_inv_l; [exact H3|].
      rewrite Qmult_comm. apply Qle_shift_div_r; [exact H4|].
      now rewrite Qmult_1_l.
    + apply Qmult_lt_compat_r; [apply Qinv_lt_0_compat, H3 | exact H1].
  - replace (k - 1 + 1)%Z with k by lia.
    apply Qnot_le_lt. intros H. apply Qle_bool_iff in H. congruence.
Qed.

Lemma floor_log2_mono x y : 0 < x -> x <= y -> (floor_log2 x <= floor_log2 y)%Z.
Proof.
  intros Hx Hxy.
  assert (Hy : 0 < y) by (eapply Qlt_le_trans; eauto).
  pose proof (floor_log2_lower x Hx) as H1.
  pose proof (floor_log2_upper y Hy) as H2.
  assert (H : two_pow (floor_log2 x) < two_pow (floor_log2 y + 1)).
  { eapply Qle_lt_trans; [exact H1|]. eapply Qle_lt_trans; eauto. }
  apply two_pow_lt_inv in H. lia.
Qed.

Lemma round_half_even_floor y :
  (Qfloor y <= round_half_even y <= Qfloor y + 1)%Z.
Proof.
  unfold round_half_even.
  destruct (y - inject_Z (Qfloor y) ?= 1 # 2); [destruct (Z.even _)| |]; lia.
Qed.

Lemma round_half_even_mono x y :
  x <= y -> (round_half_even x <= round_half_even y)%Z.
Proof.
  intros H. pose proof (Qfloor_resp_le x y H) as Hf.
  destruct (Z.eq_dec (Qfloor x) (Qfloor y)) as [E|E].
  - unfold round_half_even. rewrite E.
    generalize dependent (Qfloor y). intros f Hf E.
    destruct (x - inject_Z f ?= 1 # 2) eqn:Ex;
      destruct (y - inject_Z f ?= 1 # 2) eqn:Ey;
      try (destruct (Z.even f)); try lia;
      first [apply Qeq_alt in Ex | apply Qlt_alt in Ex | apply Qgt_alt in Ex];
      first [apply Qeq_alt in Ey | apply Qlt_alt in Ey | apply Qgt_alt in Ey];
      exfalso; clear Hf; generalize dependent (inject_Z f); intros q Ex Ey;
      lra.
  - pose proof (round_half_even_floor x). pose proof (round_half_even_floor y).
    lia.
Qed.

(** A bound that is a multiple of the unit in the last place survives
    rounding, from above and from below. *)
Lemma rn_pos_le_multiple x (K : Z) :
  x <= inject_Z K * two_pow (ulp_exp x) ->
  rn_pos x <= inject_Z K * two_pow (ulp_exp x).
Proof.
  intros H. unfold rn_pos. pose proof (two_pow_pos (ulp_exp x)) as Hp.
  apply Qmult_le_compat_r; [|now apply Qlt_le_weak].
  rewrite <- Zle_Qle. apply round_half_even_le.
  apply Qle_shift_div_r; [exact Hp | exact H].
Qed.

Lemma rn_pos_ge_multiple x (K : Z) :
  inject_Z K * two_pow (ulp_exp x) <= x ->
  inject_Z K * two_pow (ulp_exp x) <= rn_pos x.
Proof.
  intros H. unfold rn_pos. pose proof (two_pow_pos (ulp_exp x)) as Hp.
  apply Qmult_le_compat_r; [|now apply Qlt_le_weak].
  rewrite <- Zle_Qle. apply round_half_even_ge.
  apply Qle_shift_div_l; [exact Hp | exact H].
Qed.

Lemma two_pow_as_multiple a e :
  (e <= a)%Z -> two_pow a == inject_Z (2 ^ (a - e)) * two_pow e.
Proof.
  intros H. rewrite <- two_pow_Z by lia. rewrite <- two_pow_add.
  now replace (a - e + e)%Z with a by lia.
Qed.

Lemma rn_pos_mono x y : 0 < x -> x <= y -> rn_pos x <= rn_pos y.
Proof.
  intros Hx Hxy.
  assert (Hy : 0 < y) by (eapply Qlt_le_trans; eauto).
  pose proof (floor_log2_mono x y Hx Hxy) as Hfl.
  destruct (Z.eq_dec (ulp_exp x) (ulp_exp y)) as [E|E].
  - unfold rn_pos. rewrite E. pose proof (two_pow_pos (ulp_exp y)) as Hp.
    apply Qmult_le_compat_r; [|now apply Qlt_le_weak].
    rewrite <- Zle_Qle. apply round_half_even_mono.
    unfold Qdiv. apply Qmult_le_compat_r; [exact Hxy|].
    now apply Qlt_le_weak, Qinv_lt_0_compat.
  - assert (Hlt : (ulp_exp x < ulp_exp y)%Z) by (unfold ulp_exp in *; lia).
    assert (Hey : ulp_exp y = (floor_log2 y - 52)%Z)
      by (unfold ulp_exp in *; lia).
    assert (Hfx : (floor_log2 x + 1 <= floor_log2 y)%Z)
      by (unfold ulp_exp in *; lia).
    apply Qle_trans with (two_pow (floor_log2 y)).
    + rewrite (two_pow_as_multiple (floor_log2 y) (ulp_exp x))
        by (unfold ulp_exp in *; lia).
      apply rn_pos_le_multiple.
      rewrite <- two_pow_as_multiple by (unfold ulp_exp in *; lia).
      apply Qlt_le_weak. eapply Qlt_le_trans; [apply floor_log2_upper, Hx|].
      now apply two_pow_le.
    + rewrite (two_pow_as_multiple (floor_log2 y) (ulp_exp y)) by lia.
      apply rn_pos_ge_multiple.
      rewrite <- two_pow_as_multiple by lia.
      now apply floor_log2_lower.
Qed.

Lemma rn_mono x y : 0 <= x -> x <= y -> rn x <= rn y.
Proof.
  intros Hx Hxy. destruct (nonneg_cases x Hx) as [H0|H0].
  - rewrite (rn_of_zero x H0). apply rn_nonneg. lra.
  - assert (Hy : 0 < y) by lra.
    rewrite (rn_of_pos x H0), (rn_of_pos y Hy). now apply rn_pos_mono.
Qed.

(** Rounding leaves an integer below 2^53 as it is. *)
Lemma rn_exact x (L : Z) :
  x == inject_Z L -> (0 <= L < 2 ^ 53)%Z -> rn x == inject_Z L.
Proof.
  intros Hx HL. apply Qle_antisym.
  - apply rn_le_int; [| rewrite Hx; apply Qle_refl | lia].
    rewrite Hx. change 0 with (inject_Z 0). rewrite <- Zle_Qle. lia.
  - destruct (Z.eq_dec L 0) as [->|Hn].
    + apply rn_nonneg. rewrite Hx. apply Qle_refl.
    + assert (H0 : 0 < x).
      { rewrite Hx. change 0 with (inject_Z 0). rewrite <- Zlt_Qlt. lia. }
      rewrite (rn_of_pos x H0).
      assert (Hlt : x < two_pow (52 + 1)).
      { rewrite two_pow_Z by lia. rewrite Hx. rewrite <- Zlt_Qlt. lia. }
      pose proof (ulp_exp_le x 52 H0 Hlt ltac:(lia)) as He.
      assert (E : inject_Z L
                  == inject_Z (L * 2 ^ (- ulp_exp x)) * two_pow (ulp_exp x)).
      { rewrite inject_Z_mult, <- two_pow_Z, <- Qmult_assoc, two_pow_cancel
          by lia. ring. }
      rewrite E. apply rn_pos_ge_multiple. rewrite <- E, Hx. apply Qle_refl.
Qed.
End MonoFacts.

Module TableFacts.
Import Float FloatFacts RnFacts PercentFacts MonoFacts.
Import DictFacts SortFacts SumFacts RendererFacts.
Local Open Scope Q_scope.

Lemma share_mono b1 b2 total :
  (b1 <= b2)%N -> (0 < total)%N -> share b1 total <= share b2 total.
Proof.
  intros Hb Ht. unfold share, Qdiv.
  apply Qmult_le_compat_r.
  - rewrite <- Zle_Qle. lia.
  - apply Qinv_le_0_compat. change 0 with (inject_Z 0).
    rewrite <- Zle_Qle. lia.
Qed.

Lemma share_nonneg b total : 0 <= share b total.
Proof.
  unfold share, Qdiv. apply Qmult_le_0_compat.
  - change 0 with (inject_Z 0). rewrite <- Zle_Qle. lia.
  - apply Qinv_le_0_compat. change 0 with (inject_Z 0).
    rewrite <- Zle_Qle. lia.
Qed.

Lemma pct_of_nonneg b total : 0 <= pct_of b total.
Proof.
  unfold pct_of, mul. apply rn_nonneg.
  pose proof (rn_nonneg _ (share_nonneg b total)) as H.
  generalize dependent (rn (share b total)). intros q H. lra.
Qed.

Lemma pct_of_mono b1 b2 total :
  (b1 <= b2)%N -> (0 < total)%N -> pct_of b1 total <= pct_of b2 total.
Proof.
  intros Hb Ht. unfold pct_of, mul.
  pose proof (rn_nonneg _ (share_nonneg b1 total)) as H0.
  pose proof (rn_mono _ _ (share_nonneg b1 total) (share_mono _ _ _ Hb Ht))
    as H1.
  generalize dependent (rn (share b2 total)).
  generalize dependent (rn (share b1 total)). intros q1 H0 q2 H1.
  apply rn_mono; lra.
Qed.

Lemma tenths_mono p q : p <= q -> (tenths p <= tenths q)%Z.
Proof. intros H. unfold tenths. apply round_half_even_mono. lra. Qed.

Lemma filled_of_mono p q : 0 <= p -> p <= q -> (filled_of p <= filled_of q)%Z.
Proof.
  intros H0 H. unfold filled_of, py_round, mul, div.
  apply round_half_even_mono.
  assert (Hd0 : 0 <= p / 100).
  { unfold Qdiv. setoid_replace (/ 100) with (1 # 100) by reflexivity. lra. }
  assert (Hd : p / 100 <= q / 100).
  { unfold Qdiv. setoid_replace (/ 100) with (1 # 100) by reflexivity. lra. }
  pose proof (rn_nonneg _ Hd0) as Hr0.
  pose proof (rn_mono _ _ Hd0 Hd) as Hr.
  generalize dependent (rn (q / 100)). generalize dependent (rn (p / 100)).
  intros dp Hp0 dq Hpq.
  apply rn_mono.
  - rewrite rn_20. lra.
  - rewrite rn_20. lra.
Qed.

Lemma StronglySorted_map {A B} (f : A -> B) (R : A -> A -> Prop)
    (S : B -> B -> Prop) l :
  (forall a b, R a b -> S (f a) (f b)) ->
  StronglySorted R l -> StronglySorted S (List.map f l).
Proof.
  intros H. induction 1 as [|a l Hs IH Ha]; simpl; constructor.
  - exact IH.
  - apply Forall_map. eapply Forall_impl; [|exact Ha].
    intros b Hb. now apply H.
Qed.

Lemma row_percents_sorted lt :
  NoDup (keys lt) -> (0 < sum_values lt)%N ->
  StronglySorted never_grows
    (List.map (fun kv => pct_of (snd kv) (sum_values lt)) (ordered_items lt)).
Proof.
  intros Hk Ht.
  apply (StronglySorted_map _ by_bytes_desc).
  - intros a b Hab. unfold by_bytes_desc in Hab.
    pose proof (pct_of_mono _ _ _ Hab Ht) as Hm.
    pose proof (pct_of_nonneg (snd b) (sum_values lt)) as H0.
    split; [now apply tenths_mono | now apply filled_of_mono].
  - rewrite (ordered_items_sorted lt Hk). apply sorted_desc_sorted.
Qed.

(** *** The two ends of the scale *)

Lemma share_all total : (0 < total)%N -> share total total == 1.
Proof.
  intros Ht. unfold share. field. now apply inject_N_nonzero.
Qed.

Lemma share_none total : share 0 total == 0.
Proof. unfold share, Qdiv. apply Qmult_0_l. Qed.

Lemma pct_of_all total : (0 < total)%N -> pct_of total total == 100.
Proof.
  intros Ht. unfold pct_of, mul.
  pose proof (rn_exact _ 1 (share_all total Ht) ltac:(lia)) as H.
  apply (rn_exact _ 100); [|lia].
  rewrite H. reflexivity.
Qed.

Lemma pct_of_none total : pct_of 0 total = 0.
Proof.
  unfold pct_of, mul. rewrite (rn_of_zero _ (share_none total)).
  apply rn_of_zero. reflexivity.
Qed.

Lemma tenths_of_int p (L : Z) : p == inject_Z L -> tenths p = (L * 10)%Z.
Proof.
  intros H. unfold tenths.
  assert (E : p * 10 == inject_Z (L * 10)).
  { rewrite H, inject_Z_mult. reflexivity. }
  apply Z.le_antisymm.
  - apply round_half_even_le. rewrite E. apply Qle_refl.
  - apply round_half_even_ge. rewrite E. apply Qle_refl.
Qed.

Lemma filled_of_100 p : p == 100 -> filled_of p = 20%Z.
Proof.
  intros H. unfold filled_of, py_round, mul, div.
  assert (Hd : rn (p / 100) == inject_Z 1).
  { apply rn_exact; [|lia]. rewrite H. reflexivity. }
  assert (Hm : rn (rn (p / 100) * rn (inject_Z 20)) == inject_Z 20).
  { apply rn_exact; [|lia]. rewrite Hd, rn_20. reflexivity. }
  apply Z.le_antisymm.
  - apply round_half_even_le. rewrite Hm. apply Qle_refl.
  - apply round_half_even_ge. rewrite Hm. apply Qle_refl.
Qed.

Lemma row_text_all lang p :
  p == 100 ->
  row_text lang p
  = (lit "| " ++ lang ++ lit " | 100.0% | " ++ repeat BLOCK_FULL 20
     ++ lit " |")%list.
Proof.
  intros H. unfold row_text, format_1f.
  rewrite (tenths_of_int p 100 H), progress_bar_20, (filled_of_100 p H).
  cbn [Z.to_nat Z.sub]. rewrite <- !app_assoc. reflexivity.
Qed.

Lemma row_text_none lang :
  row_text lang 0
  = (lit "| " ++ lang ++ lit " | 0.0% | " ++ repeat BLOCK_LIGHT 20
     ++ lit " |")%list.
Proof. unfold row_text. rewrite <- !app_assoc. reflexivity. Qed.

(** *** Bars of any length *)

Lemma progress_bar_any_length pct (L : Z) :
  0 <= pct <= 100 -> (0 <= L < 2 ^ 53)%Z ->
  exists filled,
    (0 <= filled <= L)%Z
    /\ progress_bar pct L
       = (repeat BLOCK_FULL (Z.to_nat filled)
          ++ repeat BLOCK_LIGHT (Z.to_nat (L - filled)))%list
    /\ List.length (progress_bar pct L) = Z.to_nat L.
Proof.
  intros [H0 H1] HL.
  set (filled := py_round (mul (div pct 100) (rn (inject_Z L)))).
  assert (Hf : (0 <= filled <= L)%Z).
  { unfold filled, py_round, mul, div.
    assert (Hd : 0 <= rn (pct / 100) <= 1).
    { assert (0 <= pct / 100 <= 1).
      { unfold Qdiv. setoid_replace (/ 100) with (1 # 100) by reflexivity.
        lra. }
      split; [apply rn_nonneg; tauto|].
      apply (rn_le_int _ 1); [tauto | tauto | reflexivity]. }
    pose proof (rn_exact (inject_Z L) L (Qeq_refl _) HL) as HrL.
    assert (HL0 : 0 <= inject_Z L).
    { change 0 with (inject_Z 0). rewrite <- Zle_Qle. lia. }
    generalize dependent (rn (pct / 100)). intros d Hd.
    assert (Hm : 0 <= d * rn (inject_Z L) <= inject_Z L).
    { rewrite HrL. generalize dependent (inject_Z L). intros l _ HL0.
      split; [apply Qmult_le_0_compat; tauto|].
      setoid_replace l with (1 * l) at 2 by ring.
      apply Qmult_le_compat_r; tauto. }
    generalize dependent (d * rn (inject_Z L)). intros m Hm.
    split.
    - apply round_half_even_ge. apply rn_nonneg. tauto.
    - apply round_half_even_le. apply rn_le_int; [tauto | tauto | lia]. }
  exists filled. split; [exact Hf|]. split; [reflexivity|].
  unfold progress_bar. fold filled. unfold times.
  rewrite length_app, !repeat_length. lia.
Qed.
End TableFacts.

Module TotalsFacts.
Import DictFacts SortFacts SumFacts RendererFacts AggregatorFacts.

Lemma keys_set_item_old (d : dict N) k v :
  In k (keys d) -> keys (set_item d k v) = keys d.
Proof.
  induction d as [|[k' v'] d IH]; simpl; intros H; [contradiction|].
  destruct (str_eqb k' k) eqn:E; [reflexivity|].
  simpl. f_equal. apply IH. destruct H as [H|H]; [|exact H].
  subst k'. now rewrite str_eqb_refl in E.
Qed.

Lemma keys_set_item (d : dict N) k v :
  keys (set_item d k v) = keys d \/ (~ In k (keys d)
                                      /\ keys (set_item d k v) = (keys d ++ [k])%list).
Proof.
  destruct (in_dec (list_eq_dec N.eq_dec) k (keys d)) as [H|H].
  - left. now apply keys_set_item_old.
  - right. split; [exact H|]. rewrite (set_item_fresh d k v H).
    unfold keys. now rewrite map_app.
Qed.

Lemma set_item_nodup (d : dict N) k v :
  NoDup (keys d) -> NoDup (keys (set_item d k v)).
Proof.
  intros H. destruct (keys_set_item d k v) as [E|[Hn E]]; rewrite E.
  - exact H.
  - apply NoDup_app; [exact H | repeat constructor; simpl; tauto |].
    intros a Ha Hb. simpl in Hb. destruct Hb as [<- | Hb]; [|exact Hb].
    contradiction.
Qed.

Lemma set_item_in (d : dict N) k v k' :
  In k' (keys (set_item d k v)) <-> In k' (keys d) \/ k' = k.
Proof.
  destruct (keys_set_item d k v) as [E|[Hn E]]; rewrite E.
  - split; [tauto|]. intros [H | ->]; [exact H|].
    destruct (in_dec (list_eq_dec N.eq_dec) k (keys d)) as [Hi|Hi];
      [exact Hi|].
    rewrite (set_item_fresh d k v Hi) in E. unfold keys in E.
    rewrite map_app in E. simpl in E.
    apply (f_equal (@List.length _)) in E. rewrite length_app in E.
    simpl in E. lia.
  - rewrite in_app_iff. simpl. split.
    + intros [H|[H|H]]; [now left | now right | destruct H].
    + intros [H|H]; [now left | right; left; congruence].
Qed.

Lemma add_languages_nodup data : forall totals,
  NoDup (keys totals) -> NoDup (keys (add_languages totals data)).
Proof.
  unfold add_languages.
  induction data as [|[k v] data IH]; intros totals H; [exact H|].
  simpl. apply IH. now apply set_item_nodup.
Qed.

Lemma add_languages_in data : forall totals k,
  In k (keys (add_languages totals data))
  <-> In k (keys totals) \/ In k (keys data).
Proof.
  unfold add_languages.
  induction data as [|[k' v] data IH]; intros totals k; simpl; [tauto|].
  rewrite IH, set_item_in. intuition congruence.
Qed.

Lemma sum_values_set_item (d : dict N) k v :
  sum_values (set_item d k (get_or d k 0 + v)%N) = (sum_values d + v)%N.
Proof.
  rewrite !sum_values_Nsum. unfold get_or, values.
  induction d as [|[k' v'] d IH]; simpl; [lia|].
  destruct (str_eqb k' k) eqn:E; simpl; [lia|].
  rewrite IH. lia.
Qed.

Lemma add_languages_sum data : forall totals,
  sum_values (add_languages totals data)
  = (sum_values totals + sum_values data)%N.
Proof.
  unfold add_languages.
  induction data as [|[k v] data IH]; intros totals; simpl.
  - rewrite (sum_values_Nsum []). simpl. lia.
  - rewrite IH, sum_values_set_item, (sum_values_Nsum ((k, v) :: data)),
      (sum_values_Nsum data). simpl. lia.
Qed.

Section WithNetwork.
Variable gh_get : pyval -> result (dict N).

Lemma loop_nodup repos : forall totals,
  NoDup (keys totals) ->
  NoDup (keys (fetch_languages_loop gh_get repos totals)).
Proof.
  induction repos as [|r rest IH]; intros totals H; [exact H|].
  rewrite loop_step. apply IH. now apply add_languages_nodup.
Qed.

Lemma loop_in repos : forall totals k,
  In k (keys (fetch_languages_loop gh_get repos totals))
  <-> In k (keys totals)
      \/ exists r, In r repos /\ In k (keys (contribution gh_get r)).
Proof.
  induction repos as [|r rest IH]; intros totals k.
  - simpl. split; [tauto|]. intros [H|[r [Hr _]]]; [exact H | destruct Hr].
  - rewrite loop_step, IH, add_languages_in. split.
    + intros [[H|H]|[r' [H1 H2]]].
      * now left.
      * right. exists r. split; [now left | exact H].
      * right. exists r'. split; [now right | exact H2].
    + intros [H|[r' [[<- | H1] H2]]].
      * left. now left.
      * left. now right.
      * right. exists r'. tauto.
Qed.

Lemma loop_sum repos : forall totals,
  sum_values (fetch_languages_loop gh_get repos totals)
  = (sum_values totals
     + Nsum (List.map (fun r => sum_values (contribution gh_get r)) repos))%N.
Proof.
  induction repos as [|r rest IH]; intros totals.
  - simpl. lia.
  - rewrite loop_step, IH, add_languages_sum. simpl. lia.
Qed.
End WithNetwork.
End TotalsFacts.

Module QuoteFacts.
Import Quote.

Ltac bool_cases :=
  repeat match goal with
         | |- context [N.leb ?a ?b] => destruct (N.leb_spec a b)
         | |- context [N.ltb ?a ?b] => destruct (N.ltb_spec a b)
         | |- context [N.eqb ?a ?b] => destruct (N.eqb_spec a b)
         end;
  simpl; try reflexivity; try discriminate; try lia.

Ltac nlia :=
  repeat match goal with
         | H : context [N.div ?a ?b] |- _ =>
             generalize dependent (N.div a b); intros
         | H : context [N.modulo ?a ?b] |- _ =>
             generalize dependent (N.modulo a b); intros
         | |- context [N.div ?a ?b] =>
             generalize dependent (N.div a b); intros
         | |- context [N.modulo ?a ?b] =>
             generalize dependent (N.modulo a b); intros
         end;
  lia.

Lemma always_safe_digit b : (48 <= b <= 57)%N -> always_safe b = true.
Proof. intros H. unfold always_safe. bool_cases. Qed.

Lemma always_safe_upper b : (65 <= b <= 90)%N -> always_safe b = true.
Proof. intros H. unfold always_safe. bool_cases. Qed.

Lemma always_safe_not_space b : always_safe b = true -> b <> SPACE.
Proof.
  intros H ->. discriminate H.
Qed.

Lemma hex_digit_safe n : (n < 16)%N -> always_safe (hex_digit n) = true.
Proof.
  intros H. unfold hex_digit. destruct (N.ltb_spec n 10).
  - apply always_safe_digit. lia.
  - apply always_safe_upper. lia.
Qed.

Lemma hex_digit_not_space n : hex_digit n <> SPACE.
Proof.
  unfold hex_digit, SPACE. destruct (N.ltb_spec n 10); lia.
Qed.

Lemma utf8_bytes (c : N) bs :
  utf8 c = Some bs ->
  Forall (fun b => (b < 256)%N) bs /\ (c <> SPACE -> ~ In SPACE bs).
Proof.
  unfold utf8, SPACE. intros H.
  destruct (N.ltb_spec c 128).
  { assert (E0 : Some bs = Some bs) by reflexivity; rewrite <- H in E0 at 1; clear H; apply (f_equal (fun o => match o with Some x => x | None => bs end)) in E0; cbv beta iota in E0; subst bs. split; [repeat (apply Forall_cons; [nlia|]); apply Forall_nil|].
    intros Hc [E|[]]. congruence. }
  destruct (N.ltb_spec c 2048).
  { assert (E0 : Some bs = Some bs) by reflexivity; rewrite <- H in E0 at 1; clear H; apply (f_equal (fun o => match o with Some x => x | None => bs end)) in E0; cbv beta iota in E0; subst bs.
    assert (c / 64 < 32)%N by (apply N.Div0.div_lt_upper_bound; lia).
    pose proof (N.mod_lt c 64 ltac:(lia)).
    split; [repeat (apply Forall_cons; [nlia|]); apply Forall_nil|].
    intros _ [E|[E|[]]]; unfold char in *; nlia. }
  destruct (N.ltb_spec c 65536).
  { destruct ((55296 <=? c)%N && (c <=? 57343)%N); [discriminate|].
    assert (E0 : Some bs = Some bs) by reflexivity; rewrite <- H in E0 at 1; clear H; apply (f_equal (fun o => match o with Some x => x | None => bs end)) in E0; cbv beta iota in E0; subst bs.
    assert (c / 4096 < 16)%N by (apply N.Div0.div_lt_upper_bound; lia).
    pose proof (N.mod_lt (c / 64) 64 ltac:(lia)).
    pose proof (N.mod_lt c 64 ltac:(lia)).
    split; [repeat (apply Forall_cons; [nlia|]); apply Forall_nil|].
    intros _ [E|[E|[E|[]]]]; unfold char in *; nlia. }
  assert (E0 : Some bs = Some bs) by reflexivity; rewrite <- H in E0 at 1; clear H; apply (f_equal (fun o => match o with Some x => x | None => bs end)) in E0; cbv beta iota in E0; subst bs.
  pose proof (N.mod_lt (c / 262144) 8 ltac:(lia)).
  pose proof (N.mod_lt (c / 4096) 64 ltac:(lia)).
  pose proof (N.mod_lt (c / 64) 64 ltac:(lia)).
  pose proof (N.mod_lt c 64 ltac:(lia)).
  split; [repeat (apply Forall_cons; [nlia|]); apply Forall_nil|].
  intros _ [E|[E|[E|[E|[]]]]]; unfold char in *; nlia.
Qed.

Lemma encode_utf8_bytes s : forall bs,
  encode_utf8 s = Some bs ->
  Forall (fun b => (b < 256)%N) bs
  /\ (existsb (N.eqb SPACE) s = false -> ~ In SPACE bs).
Proof.
  induction s as [|c s IH]; simpl; intros bs H.
  - injection H as <-. split; [constructor | intros _ []].
  - destruct (utf8 c) as [cs|] eqn:Ec; [|discriminate].
    destruct (encode_utf8 s) as [rest|]; [|discriminate].
    injection H as <-.
    destruct (utf8_bytes c cs Ec) as [H1 H2].
    destruct (IH rest eq_refl) as [H3 H4].
    split; [apply Forall_app; tauto|].
    intros Hs. apply orb_false_iff in Hs. destruct Hs as [Hc Hs].
    rewrite in_app_iff. intros [Hi|Hi].
    + apply H2; [|exact Hi]. intros E. rewrite E in Hc. discriminate Hc.
    + now apply H4.
Qed.

Lemma encode_utf8_total s :
  no_surrogate s = true -> exists bs, encode_utf8 s = Some bs.
Proof.
  induction s as [|c s IH]; simpl; intros H; [now exists []|].
  apply andb_true_iff in H. destruct H as [Hc Hs].
  destruct (IH Hs) as [rest ->].
  unfold utf8. apply negb_true_iff in Hc. rewrite Hc.
  destruct (c <? 128)%N; [eexists; reflexivity|].
  destruct (c <? 2048)%N; [eexists; reflexivity|].
  destruct (c <? 65536)%N; eexists; reflexivity.
Qed.

Lemma encode_utf8_surrogate s :
  no_surrogate s = false -> encode_utf8 s = None.
Proof.
  induction s as [|c s IH]; simpl; intros H; [discriminate|].
  apply andb_false_iff in H. destruct H as [Hc|Hs].
  - apply negb_false_iff in Hc. unfold utf8. rewrite Hc.
    assert ((c <? 128)%N = false).
    { apply andb_true_iff in Hc. destruct Hc as [Hc _].
      apply N.leb_le in Hc. apply N.ltb_ge. lia. }
    assert ((c <? 2048)%N = false).
    { apply andb_true_iff in Hc. destruct Hc as [Hc _].
      apply N.leb_le in Hc. apply N.ltb_ge. lia. }
    assert ((c <? 65536)%N = true).
    { apply andb_true_iff in Hc. destruct Hc as [_ Hc].
      apply N.leb_le in Hc. apply N.ltb_lt. lia. }
    rewrite H, H0, H1. reflexivity.
  - rewrite (IH Hs). destruct (utf8 c); reflexivity.
Qed.

Lemma encode_utf8_ascii s :
  forallb (fun c => (c <? 128)%N) s = true -> encode_utf8 s = Some s.
Proof.
  induction s as [|c s IH]; simpl; intros H; [reflexivity|].
  apply andb_true_iff in H. destruct H as [Hc Hs].
  rewrite (IH Hs). unfold utf8. rewrite Hc. reflexivity.
Qed.

Lemma replace_percent_byte b :
  replace_char SPACE (lit "+") (percent_byte b) = percent_byte b.
Proof.
  unfold percent_byte, replace_char. cbn [flat_map].
  pose proof (hex_digit_not_space (b / 16)) as H1.
  pose proof (hex_digit_not_space (b mod 16)) as H2.
  apply N.eqb_neq in H1. apply N.eqb_neq in H2. rewrite H1, H2.
  reflexivity.
Qed.

Lemma replace_char_app old new a b :
  replace_char old new (a ++ b)
  = (replace_char old new a ++ replace_char old new b)%list.
Proof. unfold replace_char. apply flat_map_app. Qed.

Lemma quote_with_space bs :
  replace_char SPACE (lit "+") (quote_from_bytes [SPACE] bs)
  = flat_map quote_plus_byte bs.
Proof.
  induction bs as [|b bs IH]; [reflexivity|].
  cbn [quote_from_bytes flat_map]. fold (quote_from_bytes [SPACE] bs).
  rewrite replace_char_app, IH. f_equal.
  unfold quote_plus_byte. cbn [existsb]. rewrite orb_false_r.
  destruct (always_safe b) eqn:Es.
  - simpl. pose proof (always_safe_not_space b Es) as Hn.
    unfold replace_char. cbn [flat_map].
    apply N.eqb_neq in Hn. rewrite Hn. reflexivity.
  - simpl. destruct (N.eqb_spec b SPACE) as [->|Hn].
    + reflexivity.
    + apply replace_percent_byte.
Qed.

Lemma quote_without_space bs :
  ~ In SPACE bs -> quote_from_bytes [] bs = flat_map quote_plus_byte bs.
Proof.
  induction bs as [|b bs IH]; intros H; [reflexivity|].
  cbn [quote_from_bytes flat_map]. fold (quote_from_bytes [] bs).
  rewrite IH by (intros Hi; apply H; now right). f_equal.
  unfold quote_plus_byte. cbn [existsb]. rewrite orb_false_r.
  destruct (always_safe b); [reflexivity|].
  destruct (N.eqb_spec b SPACE) as [->|Hn]; [|reflexivity].
  exfalso. apply H. now left.
Qed.

(** [quote_plus] works byte by byte. *)
Lemma quote_plus_bytes s :
  quote_plus s
  = match encode_utf8 s with
    | Some bs => Some (flat_map quote_plus_byte bs)
    | None => None
    end.
Proof.
  unfold quote_plus, quote.
  destruct (existsb (N.eqb SPACE) s) eqn:E;
    destruct (encode_utf8 s) as [bs|] eqn:Eb; try reflexivity.
  - now rewrite quote_with_space.
  - destruct (encode_utf8_bytes s bs Eb) as [_ H].
    now rewrite (quote_without_space bs (H E)).
Qed.

Lemma quote_plus_byte_safe b :
  (b < 256)%N -> forallb query_safe (quote_plus_byte b) = true.
Proof.
  intros H. unfold quote_plus_byte, query_safe.
  destruct (always_safe b) eqn:E; [simpl; now rewrite E|].
  destruct (b =? SPACE)%N; [reflexivity|].
  unfold percent_byte. cbn [forallb].
  rewrite (hex_digit_safe (b / 16))
    by (apply N.Div0.div_lt_upper_bound; lia).
  rewrite (hex_digit_safe (b mod 16)) by (apply N.mod_lt; lia).
  reflexivity.
Qed.

Lemma quote_plus_bytes_safe bs :
  Forall (fun b => (b < 256)%N) bs ->
  forallb query_safe (flat_map quote_plus_byte bs) = true.
Proof.
  induction 1 as [|b bs Hb _ IH]; [reflexivity|].
  cbn [flat_map]. rewrite forallb_app, IH, (quote_plus_byte_safe b Hb).
  reflexivity.
Qed.

Lemma quote_plus_plain s :
  forallb always_safe s = true -> forallb (fun c => (c <? 128)%N) s = true.
Proof.
  induction s as [|c s IH]; simpl; intros H; [reflexivity|].
  apply andb_true_iff in H. destruct H as [Hc Hs]. rewrite IH by exact Hs.
  rewrite andb_true_r. unfold always_safe in Hc.
  destruct (N.ltb_spec c 128); [reflexivity|].
  exfalso. revert Hc. bool_cases.
Qed.

Lemma flat_map_plain s :
  forallb always_safe s = true -> flat_map quote_plus_byte s = s.
Proof.
  induction s as [|c s IH]; simpl; intros H; [reflexivity|].
  apply andb_true_iff in H. destruct H as [Hc Hs].
  unfold quote_plus_byte at 1. rewrite Hc, (IH Hs). reflexivity.
Qed.
End QuoteFacts.

Module MoreBuilderFacts.
Import BuilderFacts ResolverFacts ActivityFacts.

Lemma replace_char_removes old new s :
  ~ In old new -> ~ In old (replace_char old new s).
Proof.
  intros Hn. unfold replace_char. rewrite in_flat_map.
  intros [c [_ Hc]]. destruct (N.eqb_spec c old) as [E|Hne].
  - contradiction.
  - destruct Hc as [E|[]]. congruence.
Qed.

Lemma replace_char_nonempty old new s :
  new <> [] -> s <> [] -> replace_char old new s <> [].
Proof.
  intros Hn Hs. destruct s as [|c s]; [contradiction|].
  unfold replace_char. cbn [flat_map]. destruct (c =? old)%N.
  - destruct new; [contradiction | discriminate].
  - discriminate.
Qed.

(** *** The builder's three ways to end *)

Lemma all_str_fails items :
  forallb is_str items = false -> all_str items = Raise TypeError.
Proof.
  induction items as [|v items IH]; simpl; [discriminate|].
  destruct v; simpl; try reflexivity. intros H. now rewrite IH.
Qed.

Lemma bio_lines_untyped cfg :
  str_or_falsy cfg (lit "bio_code") = false ->
  forallb is_str (bio_lines (get_or cfg (lit "bio_code") (VStr []))) = false.
Proof.
  unfold str_or_falsy, get_or, bio_lines.
  destruct (lookup cfg (lit "bio_code")) as [v|]; [|discriminate].
  destruct v as [| b | z | s]; simpl; try discriminate.
  - destruct b; simpl; [reflexivity | discriminate].
  - destruct (z =? 0)%Z; simpl; [discriminate | reflexivity].
Qed.

Lemma build_readme_untyped_bio cfg stats lang commits ts :
  str_or_absent cfg (lit "linkedin_url") = true ->
  str_or_falsy cfg (lit "bio_code") = false ->
  build_readme cfg stats lang commits ts = Raise TypeError.
Proof.
  intros Hl Hb. unfold build_readme.
  rewrite (py_strip_typed cfg _ [] Hl). cbn [bind].
  unfold py_join. rewrite all_str_fails; [reflexivity|].
  rewrite !forallb_app, (bio_lines_untyped cfg Hb).
  rewrite image_lines_str. reflexivity.
Qed.

(** *** The resolver on settings without [strip] *)

Lemma py_strip_untyped cfg k default :
  str_or_absent cfg k = false ->
  py_strip (get_or cfg k (VStr default)) = Raise AttributeError.
Proof.
  unfold str_or_absent, get_or. destruct (lookup cfg k) as [[| | |s]|];
    simpl; try discriminate; reflexivity.
Qed.

Lemma get_or_typed cfg k default :
  str_or_absent cfg k = true ->
  get_or cfg k (VStr default) = VStr (as_str (get_or cfg k (VStr default))).
Proof.
  unfold str_or_absent, get_or. destruct (lookup cfg k) as [[| | |s]|];
    simpl; try discriminate; reflexivity.
Qed.

(** *** The fetcher under any limit *)

Lemma scan_events_nonpositive events limit :
  (limit <= 0)%Z ->
  scan_events events [] limit = firstn 1 (push_commits events).
Proof.
  intros Hl. induction events as [|ev rest IH]; [reflexivity|].
  cbn [scan_events push_commits flat_map]. fold (push_commits rest).
  destruct (is_push ev); cbn [negb]; [|exact IH].
  destruct (ev_commits ev) as [|c cs].
  - simpl. exact IH.
  - cbn [scan_commits List.map app List.length].
    destruct (Z.geb_spec (Z.of_nat 1) limit) as [_|H]; [reflexivity | lia].
Qed.

Lemma scan_events_any_limit events limit :
  scan_events events [] limit
  = firstn (Z.to_nat (Z.max limit 1)) (push_commits events).
Proof.
  destruct (Z.le_gt_cases limit 0) as [H|H].
  - rewrite (scan_events_nonpositive events limit H).
    now replace (Z.max limit 1) with 1%Z by lia.
  - rewrite (scan_events_from_empty events limit ltac:(lia)).
    now replace (Z.max limit 1) with limit by lia.
Qed.
End MoreBuilderFacts.

Module MainFacts.
Import Float FloatFacts RnFacts PercentFacts DictFacts SortFacts SumFacts.
Import RendererFacts AggregatorFacts ActivityFacts BuilderFacts ResolverFacts.
Import ReposFacts MonoFacts TableFacts TotalsFacts QuoteFacts MoreBuilderFacts.

Lemma language_section_returns totals :
  exists out, build_language_section totals = Ok out.
Proof.
  destruct (N.eq_dec (sum_values totals) 0) as [E|E].
  - exists NO_LANGUAGE_DATA. unfold build_language_section. now rewrite E.
  - eexists. apply build_language_section_eq. lia.
Qed.

Lemma no_surrogate_app a b :
  Quote.no_surrogate (a ++ b)
  = Quote.no_surrogate a && Quote.no_surrogate b.
Proof. unfold Quote.no_surrogate. apply forallb_app. Qed.

Lemma endpoint_no_surrogate username :
  Quote.no_surrogate (py_str username) = true ->
  Quote.no_surrogate (countapi_endpoint username) = true.
Proof.
  intros H. unfold countapi_endpoint.
  rewrite !no_surrogate_app, H. reflexivity.
Qed.

Lemma build_visitor_badge_returns username :
  Quote.no_surrogate (py_str username) = true ->
  exists enc,
    build_visitor_badge username = Some (BADGE_PREFIX ++ enc)%list
    /\ forallb Quote.query_safe enc = true.
Proof.
  intros H. unfold build_visitor_badge. rewrite quote_plus_bytes.
  destruct (encode_utf8_total _ (endpoint_no_surrogate username H))
    as [bs Hbs].
  rewrite Hbs. eexists. split; [reflexivity|].
  apply quote_plus_bytes_safe.
  now destruct (encode_utf8_bytes _ bs Hbs).
Qed.

Lemma find_gif_url_returns root fs cfg username :
  str_or_absent cfg (lit "external_gif_url") = true ->
  str_or_absent cfg (lit "gif_path") = true ->
  str_or_absent cfg (lit "branch_name") = true ->
  exists u, find_gif_url root fs cfg username = Ok u.
Proof.
  intros He Hp Hb.
  rewrite (find_gif_url_typed root fs cfg username _ _ _
             (get_or_typed cfg _ [] He) (get_or_typed cfg _ [] Hp)
             (get_or_typed cfg _ (lit "Main") Hb)).
  eexists. reflexivity.
Qed.

Lemma lacks_strip_not_str v : lacks_strip v = true -> is_str v = false.
Proof. destruct v; simpl; congruence. Qed.

Lemma lacks_strip_entry cfg k v :
  lookup cfg k = Some v -> lacks_strip v = true ->
  str_or_absent cfg k = false.
Proof.
  intros Hk Hv. unfold str_or_absent. rewrite Hk.
  now apply lacks_strip_not_str.
Qed.

Lemma find_gif_url_raises root fs cfg username :
  str_or_absent cfg (lit "external_gif_url")
  && str_or_absent cfg (lit "gif_path")
  && str_or_absent cfg (lit "branch_name") = false ->
  find_gif_url root fs cfg username = Raise AttributeError.
Proof.
  intros H. unfold find_gif_url.
  destruct (str_or_absent cfg (lit "external_gif_url")) eqn:He.
  2:{ now rewrite (py_strip_untyped cfg _ [] He). }
  rewrite (py_strip_typed cfg _ [] He). cbn [bind].
  destruct (str_or_absent cfg (lit "gif_path")) eqn:Hp.
  2:{ now rewrite (py_strip_untyped cfg _ [] Hp). }
  rewrite (py_strip_typed cfg _ [] Hp). cbn [bind].
  simpl in H. now rewrite (py_strip_untyped cfg _ (lit "Main") H).
Qed.

Lemma readme_cfg_bio cfg username badge gif :
  str_or_falsy cfg (lit "bio_code") = true ->
  str_or_falsy (readme_cfg cfg username badge gif) (lit "bio_code") = true.
Proof.
  unfold str_or_falsy at 1. unfold get.
  intros H. change (str_or_falsy (readme_cfg cfg username badge gif)
                      (lit "bio_code"))
    with (is_str (get cfg (lit "bio_code"))
          || negb (truthy (get cfg (lit "bio_code")))).
  unfold get, get_or. destruct (lookup cfg (lit "bio_code")); [exact H|].
  reflexivity.
Qed.

Lemma readme_cfg_typed cfg username badge gif stats lang commits ts :
  is_str (get cfg (lit "linkedin_url")) = true ->
  str_or_falsy cfg (lit "bio_code") = true ->
  build_readme (readme_cfg cfg username badge gif) stats lang commits ts
  = Ok (join nl (List.map as_str
                   (readme_lines (readme_cfg cfg username badge gif)
                      stats lang commits ts))).
Proof.
  intros Hl Hb. apply build_readme_typed.
  - unfold str_or_absent. now rewrite readme_cfg_linkedin.
  - now apply readme_cfg_bio.
Qed.

(** Unfolding [main] once the configuration and the user name are there. *)
Lemma main_with_config fuel w cfg :
  config_file w = Mapping cfg ->
  truthy (username_of w cfg) = true ->
  main fuel w
  = match fetch_repos (repos_net w) fuel (username_of w cfg) with
    | None => None
    | Some fetched =>
        lift fetched (fun repos =>
        lift (build_language_section
                (fetch_languages_for_repos (languages_net w) repos))
          (fun lang_section_md =>
        match build_visitor_badge (username_of w cfg) with
        | None => Some (Crashed UnicodeEncodeError)
        | Some visitor_badge =>
            lift (find_gif_url (root_dir w) (file_exists w) cfg
                    (username_of w cfg))
              (fun gif_url =>
            lift (build_readme
                    (readme_cfg cfg (username_of w cfg) visitor_badge gif_url)
                    (stats_img_urls_of (username_of w cfg))
                    lang_section_md
                    (fetch_recent_commits (events_net w)
                       (username_of w cfg) 5)
                    (clock w))
              (fun readme_md => Some (write_readme readme_md)))
        end))
    end.
Proof. intros Hc Hu. unfold main. rewrite Hc, Hu. reflexivity. Qed.

(** A run that opens [README.md] has had every step before it return. *)
Lemma lift_opens {A} (r : result A) k :
  opens_readme (lift r k) -> exists a, r = Ok a /\ opens_readme (k a).
Proof.
  destruct r; simpl; [eauto|].
  intros [H|[doc H]]; discriminate H.
Qed.

(** *** Reading back what [quote_plus] wrote *)

Lemma unhex_hex_digit n :
  (n < 16)%N -> Quote.unhex (Quote.hex_digit n) = Some n.
Proof.
  intros H. unfold Quote.unhex, Quote.hex_digit.
  destruct (N.ltb_spec n 10).
  - replace ((48 <=? 48 + n) && (48 + n <=? 57))%N with true
      by (symmetry; apply andb_true_iff; split; apply N.leb_le; lia).
    f_equal. lia.
  - replace ((48 <=? 55 + n) && (55 + n <=? 57))%N with false
      by (symmetry; apply andb_false_iff; right; apply N.leb_gt; lia).
    replace ((65 <=? 55 + n) && (55 + n <=? 70))%N with true
      by (symmetry; apply andb_true_iff; split; apply N.leb_le; lia).
    f_equal. lia.
Qed.

Lemma always_safe_plain b :
  Quote.always_safe b = true -> (b =? 37)%N = false /\ (b =? 43)%N = false.
Proof.
  intros H. split; apply N.eqb_neq; intros ->; discriminate H.
Qed.

Lemma unquote_quote_plus_byte (b : N) t :
  (b < 256)%N ->
  Quote.unquote_plus_to_bytes (Quote.quote_plus_byte b ++ t)%list
  = match Quote.unquote_plus_to_bytes t with
    | Some bs => Some (b :: bs)
    | None => None
    end.
Proof.
  intros Hb. unfold Quote.quote_plus_byte.
  destruct (Quote.always_safe b) eqn:Hs.
  - destruct (always_safe_plain b Hs) as [H37 H43].
    cbn [app Quote.unquote_plus_to_bytes]. now rewrite H37, H43.
  - destruct (N.eqb_spec b SPACE) as [->|Hn].
    + reflexivity.
    + unfold Quote.percent_byte.
      cbn [app Quote.unquote_plus_to_bytes].
      change (37 =? 37)%N with true. cbv iota.
      assert (Hh : (b / 16 < 16)%N)
        by (apply N.Div0.div_lt_upper_bound; lia).
      assert (Hl : (b mod 16 < 16)%N) by (apply N.mod_lt; lia).
      rewrite (unhex_hex_digit _ Hh), (unhex_hex_digit _ Hl).
      assert (E : (16 * (b / 16) + b mod 16)%N = b)
        by (symmetry; apply N.div_mod; lia).
      rewrite E. reflexivity.
Qed.

Lemma unquote_quote_plus bs :
  Forall (fun b => (b < 256)%N) bs ->
  Quote.unquote_plus_to_bytes (flat_map Quote.quote_plus_byte bs) = Some bs.
Proof.
  induction 1 as [|b bs Hb _ IH]; [reflexivity|].
  cbn [flat_map]. now rewrite (unquote_quote_plus_byte b _ Hb), IH.
Qed.

(** *** Sample runs *)

(** With every side fetch down the run still writes its document. *)
Example degraded_run_writes :
  exists doc, main 2 Worlds.degraded = Some (Written doc).
Proof. eexists. vm_compute. reflexivity. Qed.

(** A commit message with a lone surrogate reaches [f.write], which
    refuses it after [open] has emptied the file. *)
Example surrogate_run_fails_to_write :
  main 2 Worlds.surrogate_feed = Some WriteFailed.
Proof. vm_compute. reflexivity. Qed.

(** A configuration file that is empty, or no mapping, ends the run at
    the first [cfg.get]. *)
Example empty_config_crashes fuel :
  main fuel {| config_file := NotMapping;
               env_actor := Some (lit "octocat");
               repos_net := Worlds.two_pages;
               languages_net := Samples.languages_api;
               events_net := Samples.feed_down;
               clock := Samples.timestamp;
               root_dir := lit ".";
               file_exists := Samples.no_files |}
  = Some (Crashed (Uncaught AttributeError)).
Proof. reflexivity. Qed.
End MainFacts.

(* ================================================================== *)
(** ** Further properties of the code *)

Import ReposFacts MonoFacts TableFacts TotalsFacts QuoteFacts.
Import MoreBuilderFacts MainFacts.

(** *** The repository fetcher *)

(** X1.  When the listing answers with pages of at least 100 records until
    a page of fewer than 100 (possibly none), [fetch_repos] returns the
    records of all these pages in order, after as many requests; what the
    listing would answer further on is never asked. *)
Theorem fetch_repos_collects_pages gh username full last fuel :
  full_pages gh (repos_url username) 1 full ->
  gh (repos_url username) (1 + List.length full)%nat = Ok last ->
  (List.length last < 100)%nat ->
  (List.length full < fuel)%nat ->
  fetch_repos gh fuel username = Some (Ok (List.concat full ++ last)%list).
Proof.
  intros Hf Hl Hs Hfuel. unfold fetch_repos.
  now rewrite (fetch_repos_loop_short gh _ full 1%nat last [] fuel Hf Hl Hs
                 Hfuel).
Qed.

Lemma fetch_repos_collects_pages_witness :
  fetch_repos Worlds.two_pages 2 Samples.octocat
  = Some (Ok (Worlds.hundred_repos ++ Worlds.last_repos)%list).
Proof.
  apply (fetch_repos_collects_pages Worlds.two_pages Samples.octocat
           [Worlds.hundred_repos] Worlds.last_repos 2).
  - intros i Hi. destruct i as [|i]; [|simpl in Hi; lia].
    split; [reflexivity|]. apply Nat.leb_le. reflexivity.
  - reflexivity.
  - apply Nat.ltb_lt. reflexivity.
  - apply Nat.ltb_lt. reflexivity.
Defined.

(** X2.  When a request of the listing fails after pages of at least 100
    records each, [fetch_repos] raises what the request raised: the
    records fetched so far are not returned. *)
Theorem fetch_repos_failure_is_fatal gh username full e fuel :
  full_pages gh (repos_url username) 1 full ->
  gh (repos_url username) (1 + List.length full)%nat = Raise e ->
  (List.length full < fuel)%nat ->
  fetch_repos gh fuel username = Some (Raise e).
Proof.
  intros Hf Hl Hfuel. unfold fetch_repos.
  exact (fetch_repos_loop_raise gh _ full 1%nat e [] fuel Hf Hl Hfuel).
Qed.

Lemma fetch_repos_failure_is_fatal_witness :
  fetch_repos Worlds.second_page_down 2 Samples.octocat
  = Some (Raise RequestError).
Proof.
  apply (fetch_repos_failure_is_fatal Worlds.second_page_down Samples.octocat
           [Worlds.hundred_repos] RequestError 2).
  - intros i Hi. destruct i as [|i]; [|simpl in Hi; lia].
    split; [reflexivity|]. apply Nat.leb_le. reflexivity.
  - reflexivity.
  - apply Nat.ltb_lt. reflexivity.
Defined.

(** X3.  There is no bound on the number of pages: against a listing whose
    every page holds at least 100 records, the loop of [fetch_repos] is
    still running after any number of requests. *)
Theorem fetch_repos_runs_on_full_pages gh username :
  (forall i, exists p, gh (repos_url username) (1 + i)%nat = Ok p
                       /\ (100 <= List.length p)%nat) ->
  forall fuel, fetch_repos gh fuel username = None.
Proof.
  intros H fuel. unfold fetch_repos.
  now apply fetch_repos_loop_forever.
Qed.

Lemma fetch_repos_runs_on_full_pages_witness :
  fetch_repos Worlds.endless 50 Samples.octocat = None.
Proof.
  apply (fetch_repos_runs_on_full_pages Worlds.endless Samples.octocat).
  intros i. exists Worlds.hundred_repos.
  split; [reflexivity|]. apply Nat.leb_le. reflexivity.
Defined.

(** *** The language aggregator *)

(** X4.  The totals returned by the aggregator never hold a language
    twice, whatever the repositories and the answers. *)
Theorem totals_keys_distinct gh repos :
  NoDup (keys (fetch_languages_for_repos gh repos)).
Proof. apply loop_nodup. constructor. Qed.

(** X5.  A language is a key of the totals exactly when a counted
    repository's answer lists it. *)
Theorem totals_keys_come_from_answers gh repos lang :
  In lang (keys (fetch_languages_for_repos gh repos))
  <-> exists r, In r repos /\ In lang (keys (contribution gh r)).
Proof.
  unfold fetch_languages_for_repos. rewrite loop_in. simpl.
  split; [intros [[]|H]; exact H | intros H; now right].
Qed.

(** X6.  The byte counts of the totals add up to the byte counts of all
    counted answers. *)
Theorem totals_sum_is_sum_of_answers gh repos :
  sum_values (fetch_languages_for_repos gh repos)
  = Nsum (List.map (fun r => sum_values (contribution gh r)) repos).
Proof.
  unfold fetch_languages_for_repos. rewrite loop_sum. reflexivity.
Qed.

(** X7.  On the totals of the aggregator the renderer always returns: the
    sentinel when no byte was counted, and otherwise a table with one row
    per language of the totals, largest first. *)
Theorem language_section_of_totals gh repos :
  exists out,
    build_language_section (fetch_languages_for_repos gh repos) = Ok out
    /\ ((sum_values (fetch_languages_for_repos gh repos) = 0%N
         /\ out = NO_LANGUAGE_DATA)
        \/ ((0 < sum_values (fetch_languages_for_repos gh repos))%N
            /\ exists rows,
                 out = (join nl (TABLE_HEAD ++ rows) ++ nl)%list
                 /\ List.length rows
                    = List.length (fetch_languages_for_repos gh repos)
                 /\ Forall2
                      (fun kv row =>
                         language_row
                           (sum_values (fetch_languages_for_repos gh repos))
                           kv = Ok row)
                      (ordered_items (fetch_languages_for_repos gh repos))
                      rows
                 /\ StronglySorted by_bytes_desc
                      (ordered_items (fetch_languages_for_repos gh repos)))).
Proof.
  assert (Hk : NoDup (keys (fetch_languages_for_repos gh repos)))
    by (apply loop_nodup; constructor).
  set (totals := fetch_languages_for_repos gh repos) in *.
  destruct (N.eq_dec (sum_values totals) 0) as [E|E].
  - exists NO_LANGUAGE_DATA. unfold build_language_section. rewrite E.
    split; [reflexivity | now left].
  - assert (Ht : (0 < sum_values totals)%N) by lia.
    eexists. split; [now apply build_language_section_eq|].
    right. split; [exact Ht|]. eexists. split; [reflexivity|].
    split.
    + rewrite length_map. apply Permutation_length.
      now apply ordered_items_perm.
    + split.
      * apply Forall2_map_r. intros kv _. now apply language_row_eq.
      * rewrite (ordered_items_sorted totals Hk). apply sorted_desc_sorted.
Qed.

(** *** The percentage/bar renderer *)

(** X8.  Down the rows of the table neither the printed percentage nor the
    number of full blocks of the bar ever grows. *)
Theorem percentages_never_grow_down_the_table (lang_totals : dict N) :
  NoDup (keys lang_totals) ->
  (0 < sum_values lang_totals)%N ->
  exists pcts,
    row_percents lang_totals = Ok pcts
    /\ StronglySorted never_grows pcts.
Proof.
  intros Hk Ht. eexists. split; [now apply row_percents_eq|].
  now apply row_percents_sorted.
Qed.

Lemma percentages_never_grow_down_the_table_witness :
  exists pcts,
    row_percents Samples.tied_langs = Ok pcts
    /\ StronglySorted never_grows pcts.
Proof.
  apply (percentages_never_grow_down_the_table Samples.tied_langs).
  - apply distinct_NoDup. reflexivity.
  - reflexivity.
Defined.

(** X9.  Whatever the positive total, the row of a language that holds all
    the bytes reads 100.0% with 20 full blocks, and the row of a language
    with no bytes reads 0.0% with 20 light blocks. *)
Theorem whole_and_empty_share_rows lang total :
  (0 < total)%N ->
  language_row total (lang, total)
  = Ok (lit "| " ++ lang ++ lit " | 100.0% | " ++ repeat BLOCK_FULL 20
        ++ lit " |")%list
  /\ language_row total (lang, 0%N)
     = Ok (lit "| " ++ lang ++ lit " | 0.0% | " ++ repeat BLOCK_LIGHT 20
           ++ lit " |")%list.
Proof.
  intros Ht. rewrite !language_row_eq by exact Ht. cbn [fst snd]. split.
  - now rewrite (row_text_all lang _ (pct_of_all total Ht)).
  - now rewrite pct_of_none, row_text_none.
Qed.

Lemma whole_and_empty_share_rows_witness :
  language_row 7 (lit "Rust", 7%N)
  = Ok (lit "| " ++ lit "Rust" ++ lit " | 100.0% | " ++ repeat BLOCK_FULL 20
        ++ lit " |")%list
  /\ language_row 7 (lit "Rust", 0%N)
     = Ok (lit "| " ++ lit "Rust" ++ lit " | 0.0% | "
           ++ repeat BLOCK_LIGHT 20 ++ lit " |")%list.
Proof.
  apply (whole_and_empty_share_rows (lit "Rust") 7). reflexivity.
Defined.

(** X10.  For every percentage between 0 and 100 and every length from 0
    up to 2^53, [progress_bar] returns exactly [length] glyphs: full
    blocks followed by light ones. *)
Theorem progress_bar_has_requested_length pct (length : Z) :
  (0 <= pct <= 100)%Q -> (0 <= length < 2 ^ 53)%Z ->
  exists filled,
    (0 <= filled <= length)%Z
    /\ progress_bar pct length
       = (repeat BLOCK_FULL (Z.to_nat filled)
          ++ repeat BLOCK_LIGHT (Z.to_nat (length - filled)))%list
    /\ List.length (progress_bar pct length) = Z.to_nat length.
Proof. apply progress_bar_any_length. Qed.

Lemma progress_bar_has_requested_length_witness :
  exists filled,
    (0 <= filled <= 10)%Z
    /\ progress_bar 50 10
       = (repeat BLOCK_FULL (Z.to_nat filled)
          ++ repeat BLOCK_LIGHT (Z.to_nat (10 - filled)))%list
    /\ List.length (progress_bar 50 10) = Z.to_nat 10.
Proof.
  apply (progress_bar_has_requested_length 50 10).
  - split; discriminate.
  - split; [discriminate | reflexivity].
Defined.

(** *** The recent-activity fetcher *)

(** X11.  For every limit, the references returned are the first
    [max(limit, 1)] commits of the push events of the feed, in feed
    order. *)
Theorem fetch_recent_commits_any_limit gh username limit events :
  gh (events_url username) = Ok events ->
  fetch_recent_commits gh username limit
  = firstn (Z.to_nat (Z.max limit 1)) (push_commits events).
Proof.
  intros H. unfold fetch_recent_commits. rewrite H.
  apply scan_events_any_limit.
Qed.

Lemma fetch_recent_commits_any_limit_witness :
  fetch_recent_commits (Samples.feed_of Samples.three_pushes)
    Samples.octocat (-3)
  = firstn (Z.to_nat (Z.max (-3) 1)) (push_commits Samples.three_pushes).
Proof.
  apply (fetch_recent_commits_any_limit
           (Samples.feed_of Samples.three_pushes) Samples.octocat (-3)
           Samples.three_pushes).
  reflexivity.
Defined.

(** *** The document builder *)

(** Over the values modelled, [build_readme] ends in one of three ways:
    [AttributeError] when [linkedin_url] holds [None], a bool or an int;
    else [TypeError] when [bio_code] holds [True] or a non-zero int; else
    the document. *)
Lemma build_readme_cases cfg stats_img_urls lang_section_md
    recent_commits last_updated :
  build_readme cfg stats_img_urls lang_section_md recent_commits last_updated
  = if negb (str_or_absent cfg (lit "linkedin_url")) then Raise AttributeError
    else if negb (str_or_falsy cfg (lit "bio_code")) then Raise TypeError
    else Ok (join nl
               (List.map as_str
                  (readme_lines cfg stats_img_urls lang_section_md
                     recent_commits last_updated))).
Proof.
  destruct (str_or_absent cfg (lit "linkedin_url")) eqn:Hl; cbn [negb].
  - destruct (str_or_falsy cfg (lit "bio_code")) eqn:Hb; cbn [negb].
    + now apply build_readme_typed.
    + now apply build_readme_untyped_bio.
  - now apply build_readme_untyped_linkedin.
Qed.

(** X13.  Whenever [build_readme] returns a document for the dictionary
    that [main] assembles, the title line is "# " followed by [str] of the
    configuration's [display_name] entry, "None" when there is none: the
    key is always present, so the user name never stands in. *)
Theorem main_title_is_display_name_entry cfg username visitor_badge gif_url
    stats_img_urls lang_section_md recent_commits last_updated doc :
  build_readme (readme_cfg cfg username visitor_badge gif_url)
    stats_img_urls lang_section_md recent_commits last_updated = Ok doc ->
  exists rest,
    doc = (lit "# " ++ py_str (get cfg (lit "display_name")) ++ nl ++ nl
           ++ rest)%list.
Proof.
  rewrite build_readme_cases.
  destruct (negb (str_or_absent _ _)); [discriminate|].
  destruct (negb (str_or_falsy _ _)); [discriminate|].
  intros H.
  match type of H with Ok ?X = _ => assert (E0 : doc = X) by congruence end.
  clear H. subst doc. unfold readme_lines.
  change (get_or (readme_cfg cfg username visitor_badge gif_url)
            (lit "display_name")
            (get (readme_cfg cfg username visitor_badge gif_url)
               (lit "github_username")))
    with (get cfg (lit "display_name")).
  unfold title_lines. rewrite map_app.
  remember (lit "# " ++ py_str (get cfg (lit "display_name")) ++ nl)%list
    as title eqn:Et.
  change (List.map as_str [VStr title]) with [title].
  match goal with
  | |- context [([title] ++ ?l)%list] => remember l as tail eqn:E
  end.
  destruct tail as [|x xs].
  - exfalso. apply (f_equal (@List.length _)) in E.
    rewrite length_map, !length_app in E.
    unfold language_lines in E. cbn [List.length] in E. lia.
  - exists (join nl (x :: xs)).
    change (join nl ([title] ++ x :: xs))
      with (title ++ nl ++ join nl (x :: xs))%list.
    rewrite Et, <- !app_assoc. reflexivity.
Qed.

Lemma main_title_is_display_name_entry_witness :
  exists rest,
    join nl (List.map as_str
               (readme_lines
                  (readme_cfg
                     [(lit "github_username", Samples.octocat);
                      (lit "linkedin_url", VStr (lit "https://l.example/o"))]
                     Samples.octocat Samples.octocat_badge [])
                  (stats_img_urls_of Samples.octocat) NO_LANGUAGE_DATA []
                  Samples.timestamp))
    = (lit "# " ++ lit "None" ++ nl ++ nl ++ rest)%list.
Proof.
  apply (main_title_is_display_name_entry
           [(lit "github_username", Samples.octocat);
            (lit "linkedin_url", VStr (lit "https://l.example/o"))]
           Samples.octocat Samples.octocat_badge []
           (stats_img_urls_of Samples.octocat) NO_LANGUAGE_DATA []
           Samples.timestamp).
  reflexivity.
Defined.

(** X14.  The LinkedIn badge link holds no space when the colour and the
    logo hold none: every space of the label is written as %20. *)
Theorem make_shield_link_has_no_space label color logo :
  ~ In SPACE color -> ~ In SPACE logo ->
  ~ In SPACE (make_shield_link label color logo).
Proof.
  intros Hc Hl. unfold make_shield_link. rewrite !in_app_iff.
  intros [H|[H|[H|[H|[H|[H|H]]]]]].
  - revert H. vm_compute. intuition discriminate.
  - revert H. apply replace_char_removes. vm_compute. intuition discriminate.
  - revert H. vm_compute. intuition discriminate.
  - contradiction.
  - revert H. vm_compute. intuition discriminate.
  - contradiction.
  - revert H. vm_compute. intuition discriminate.
Qed.

Lemma make_shield_link_has_no_space_witness :
  In SPACE (lit "Linked In")
  /\ ~ In SPACE (make_shield_link (lit "Linked In") (lit "blue")
                   (lit "linkedin")).
Proof.
  split; [vm_compute; tauto|].
  apply (make_shield_link_has_no_space (lit "Linked In") (lit "blue")
           (lit "linkedin")).
  - vm_compute. intuition discriminate.
  - vm_compute. intuition discriminate.
Defined.

(** *** The animated-image URL resolver *)

(** X15.  A setting of the resolver left null crashes it: when one of
    [external_gif_url], [gif_path] and [branch_name] is present and holds
    [None], a bool or an int, [find_gif_url] raises [AttributeError],
    whatever the other two hold, an external URL included: the three
    values are stripped before any of them is looked at. *)
Theorem find_gif_url_null_setting_raises
    root os_path_exists cfg username k v :
  In k [lit "external_gif_url"; lit "gif_path"; lit "branch_name"] ->
  lookup cfg k = Some v ->
  lacks_strip v = true ->
  find_gif_url root os_path_exists cfg username = Raise AttributeError.
Proof.
  intros Hin Hk Hv. apply find_gif_url_raises.
  pose proof (lacks_strip_entry cfg k v Hk Hv) as E.
  destruct Hin as [<- | [<- | [<- | []]]]; rewrite E.
  - reflexivity.
  - apply andb_false_iff. left. apply andb_false_r.
  - apply andb_false_r.
Qed.

Lemma find_gif_url_null_setting_raises_witness :
  get_or [(lit "external_gif_url", VStr (lit "https://e.example/a.gif"));
          (lit "gif_path", VNone)]
    (lit "external_gif_url") (VStr [])
  = VStr (lit "https://e.example/a.gif")
  /\ find_gif_url (lit ".") Samples.no_files
       [(lit "external_gif_url", VStr (lit "https://e.example/a.gif"));
        (lit "gif_path", VNone)]
       Samples.octocat
     = Raise AttributeError.
Proof.
  split; [reflexivity|].
  apply (find_gif_url_null_setting_raises (lit ".") Samples.no_files
           [(lit "external_gif_url", VStr (lit "https://e.example/a.gif"));
            (lit "gif_path", VNone)]
           Samples.octocat (lit "gif_path") VNone).
  - right. left. reflexivity.
  - reflexivity.
  - reflexivity.
Defined.

(** X16.  With the three settings strings or missing, the resolver returns
    the empty string exactly when, whitespace aside, neither an external
    URL nor a path is configured. *)
Theorem find_gif_url_empty_iff_unconfigured
    root os_path_exists cfg username ext path br :
  get_or cfg (lit "external_gif_url") (VStr []) = VStr ext ->
  get_or cfg (lit "gif_path") (VStr []) = VStr path ->
  get_or cfg (lit "branch_name") (VStr (lit "Main")) = VStr br ->
  find_gif_url root os_path_exists cfg username = Ok []
  <-> strip ext = [] /\ strip path = [].
Proof.
  intros He Hp Hb.
  rewrite (find_gif_url_typed root os_path_exists cfg username ext path br
             He Hp Hb).
  destruct (strip ext) as [|c e] eqn:Ee.
  - destruct (strip path) as [|d p] eqn:Ep.
    + split; [intros _; split; reflexivity | reflexivity].
    + split; [|intros [_ H]; discriminate H].
      destruct (os_path_exists _).
      * intros H. exfalso.
        assert (E : replace_char BACKSLASH [SLASH] (d :: p) = [])
          by congruence.
        revert E. apply replace_char_nonempty; discriminate.
      * intros H. exfalso. unfold raw_url in H.
        assert (E : (lit "https://raw.githubusercontent.com/"
                     ++ py_str username ++ [SLASH] ++ py_str username
                     ++ [SLASH] ++ str_or (strip br) (lit "Main") ++ [SLASH]
                     ++ d :: p)%list = []) by congruence.
        apply (f_equal (@List.length _)) in E.
        rewrite length_app in E. simpl in E. lia.
  - split; [intros H; discriminate H | intros [H _]; discriminate H].
Qed.

Lemma find_gif_url_empty_iff_unconfigured_witness :
  find_gif_url (lit ".") Samples.all_files
    [(lit "external_gif_url", VStr (lit "  ")); (lit "gif_path", VStr [])]
    Samples.octocat = Ok []
  <-> strip (lit "  ") = [] /\ strip [] = [].
Proof.
  apply (find_gif_url_empty_iff_unconfigured (lit ".") Samples.all_files
           [(lit "external_gif_url", VStr (lit "  "));
            (lit "gif_path", VStr [])]
           Samples.octocat (lit "  ") [] (lit "Main"));
    reflexivity.
Defined.

(** X17.  When the resolver answers with the local path (no external URL,
    a file at the path under the project root), the answer holds no
    backslash. *)
Theorem find_gif_url_local_has_no_backslash
    root os_path_exists cfg username ext path br :
  get_or cfg (lit "external_gif_url") (VStr []) = VStr ext ->
  get_or cfg (lit "gif_path") (VStr []) = VStr path ->
  get_or cfg (lit "branch_name") (VStr (lit "Main")) = VStr br ->
  strip ext = [] ->
  strip path <> [] ->
  os_path_exists (os_path_join root (strip path)) = true ->
  exists u,
    find_gif_url root os_path_exists cfg username = Ok u
    /\ u <> [] /\ ~ In BACKSLASH u.
Proof.
  intros He Hp Hb Hx Hn Hf.
  rewrite (find_gif_url_typed root os_path_exists cfg username ext path br
             He Hp Hb), Hx, Hf.
  destruct (strip path) as [|d p] eqn:Ep; [contradiction|].
  eexists. split; [reflexivity|]. split.
  - apply replace_char_nonempty; discriminate.
  - apply replace_char_removes. intros [H|[]]. discriminate H.
Qed.

Lemma find_gif_url_local_has_no_backslash_witness :
  exists u,
    find_gif_url (lit ".") Samples.all_files
      [(lit "gif_path", VStr (lit "assets" ++ [BACKSLASH] ++ lit "coder.gif"))]
      Samples.octocat = Ok u
    /\ u <> [] /\ ~ In BACKSLASH u.
Proof.
  apply (find_gif_url_local_has_no_backslash (lit ".") Samples.all_files
           [(lit "gif_path",
             VStr (lit "assets" ++ [BACKSLASH] ++ lit "coder.gif"))]
           Samples.octocat []
           (lit "assets" ++ [BACKSLASH] ++ lit "coder.gif") (lit "Main"));
    try reflexivity.
  discriminate.
Defined.

(** *** The visitor-counter badge builder *)

(** X18.  For every user name that is a string without a surrogate code
    point, the badge is the fixed shields.io prefix followed by an
    encoding of the counter endpoint that holds nothing but letters,
    digits and the characters [_ . - ~ % +] (no character that would end
    or split the query parameter) and that reads back, [+] as a space and
    [%XY] as a byte, as the UTF-8 bytes of the endpoint
    [https://api.countapi.xyz/hit/<name>/<name>]. *)
Theorem visitor_badge_is_query_safe name :
  Quote.no_surrogate name = true ->
  exists encoded bytes,
    build_visitor_badge (VStr name) = Some (BADGE_PREFIX ++ encoded)%list
    /\ forallb Quote.query_safe encoded = true
    /\ Quote.encode_utf8
         (lit "https://api.countapi.xyz/hit/" ++ name ++ lit "/" ++ name)%list
       = Some bytes
    /\ Quote.unquote_plus_to_bytes encoded = Some bytes.
Proof.
  intros H.
  destruct (encode_utf8_total (countapi_endpoint (VStr name))
              (endpoint_no_surrogate (VStr name) H)) as [bs Hbs].
  destruct (encode_utf8_bytes _ bs Hbs) as [Hlt _].
  exists (flat_map Quote.quote_plus_byte bs), bs.
  split.
  { unfold build_visitor_badge. rewrite quote_plus_bytes, Hbs. reflexivity. }
  split; [now apply quote_plus_bytes_safe|].
  split; [exact Hbs | now apply unquote_quote_plus].
Qed.

Lemma visitor_badge_is_query_safe_witness :
  exists encoded bytes,
    build_visitor_badge (VStr (lit "octo cat/" ++ [233%N]))
    = Some (BADGE_PREFIX ++ encoded)%list
    /\ forallb Quote.query_safe encoded = true
    /\ Quote.encode_utf8
         (lit "https://api.countapi.xyz/hit/"
          ++ (lit "octo cat/" ++ [233%N]) ++ lit "/"
          ++ (lit "octo cat/" ++ [233%N]))%list
       = Some bytes
    /\ Quote.unquote_plus_to_bytes encoded = Some bytes.
Proof.
  apply (visitor_badge_is_query_safe (lit "octo cat/" ++ [233%N])).
  reflexivity.
Defined.

(** X19.  For a user name made of letters, digits and [_ . - ~] only, the
    badge is the prefix followed by
    [https%3A%2F%2Fapi.countapi.xyz%2Fhit%2F<name>%2F<name>]. *)
Theorem visitor_badge_of_plain_name username :
  forallb Quote.always_safe (py_str username) = true ->
  build_visitor_badge username
  = Some (BADGE_PREFIX ++ lit "https%3A%2F%2Fapi.countapi.xyz%2Fhit%2F"
          ++ py_str username ++ lit "%2F" ++ py_str username)%list.
Proof.
  intros H. unfold build_visitor_badge. rewrite quote_plus_bytes.
  unfold countapi_endpoint.
  assert (Ha : forallb (fun c : N => (c <? 128)%N)
                 (lit "https://api.countapi.xyz/hit/" ++ py_str username
                  ++ lit "/" ++ py_str username)%list = true).
  { rewrite !forallb_app.
    repeat (apply andb_true_iff; split); try reflexivity;
      exact (quote_plus_plain _ H). }
  rewrite (encode_utf8_ascii _ Ha), !flat_map_app.
  pose proof (flat_map_plain _ H) as Hp.
  do 2 f_equal.
  apply (f_equal2 (@app N)); [reflexivity|].
  apply (f_equal2 (@app N)); [exact Hp|].
  apply (f_equal2 (@app N)); [reflexivity | exact Hp].
Qed.

Lemma visitor_badge_of_plain_name_witness :
  build_visitor_badge Samples.octocat = Some Samples.octocat_badge.
Proof.
  apply (visitor_badge_of_plain_name Samples.octocat). reflexivity.
Defined.

(** *** The entry point *)

(** X21.  A failure of the repository listing is fatal: when a request of
    the listing fails, [main] ends with that exception uncaught and
    writes nothing, whatever the other endpoints answer. *)
Theorem main_listing_failure_is_fatal fuel w cfg full e :
  config_file w = Mapping cfg ->
  truthy (username_of w cfg) = true ->
  full_pages (repos_net w) (repos_url (username_of w cfg)) 1 full ->
  repos_net w (repos_url (username_of w cfg)) (1 + List.length full)%nat
  = Raise e ->
  (List.length full < fuel)%nat ->
  main fuel w = Some (Crashed (Uncaught e)).
Proof.
  intros Hc Hu Hf He Hfuel. rewrite (main_with_config fuel w cfg Hc Hu).
  unfold fetch_repos.
  rewrite (fetch_repos_loop_raise (repos_net w) _ full 1%nat e [] fuel Hf He
             Hfuel).
  reflexivity.
Qed.

Lemma main_listing_failure_is_fatal_witness :
  main 2 Worlds.listing_down = Some (Crashed (Uncaught RequestError)).
Proof.
  apply (main_listing_failure_is_fatal 2 Worlds.listing_down Samples.full_cfg
           [Worlds.hundred_repos] RequestError).
  - reflexivity.
  - reflexivity.
  - intros i Hi. destruct i as [|i]; [|simpl in Hi; lia].
    split; [reflexivity|]. apply Nat.leb_le. reflexivity.
  - reflexivity.
  - apply Nat.ltb_lt. reflexivity.
Defined.

(** X22.  With a configuration whose [linkedin_url] is missing or holds
    [None], a bool or an int, [main] never gets to [README.md]: the file
    is neither written nor opened, however the rest of the run goes. *)
Theorem main_never_writes_without_linkedin fuel w cfg :
  config_file w = Mapping cfg ->
  lacks_strip (get cfg (lit "linkedin_url")) = true ->
  main fuel w <> Some WriteFailed
  /\ forall doc, main fuel w <> Some (Written doc).
Proof.
  intros Hc Hl.
  assert (Hn : ~ opens_readme (main fuel w)).
  { unfold main. rewrite Hc.
    destruct (negb (truthy (username_of w cfg))).
    { intros [H|[doc H]]; discriminate H. }
    destruct (fetch_repos _ _ _) as [fetched|].
    2:{ intros [H|[doc H]]; discriminate H. }
    intros H.
    apply lift_opens in H. destruct H as [repos [_ H]].
    apply lift_opens in H. destruct H as [lang [_ H]].
    destruct (build_visitor_badge _) as [badge|].
    2:{ destruct H as [H|[doc H]]; discriminate H. }
    apply lift_opens in H. destruct H as [gif [_ H]].
    apply lift_opens in H. destruct H as [readme [H _]].
    rewrite (main_cfg_raises cfg _ badge gif _ _ _ _
               (lacks_strip_not_str _ Hl)) in H.
    discriminate H. }
  split.
  - intros H. apply Hn. now left.
  - intros doc H. apply Hn. right. now exists doc.
Qed.

Lemma main_never_writes_without_linkedin_witness :
  lacks_strip (get Samples.minimal_config (lit "linkedin_url")) = true
  /\ main 2 Worlds.unlinked <> Some WriteFailed
  /\ forall doc, main 2 Worlds.unlinked <> Some (Written doc).
Proof.
  split; [reflexivity|].
  apply (main_never_writes_without_linkedin 2 Worlds.unlinked
           Samples.minimal_config); reflexivity.
Defined.

(** X23.  The other fetches are best effort: once the listing has
    answered, [main] gets to the write with the builder's document on
    what was fetched, whatever the languages endpoint and the event feed
    do, provided the configuration's [linkedin_url] is a string, its
    [bio_code] a string or falsy, its three image settings strings or
    missing, the user name free of surrogates, and the user name and the
    [display_name] entry printable.  [README.md] then holds the document,
    unless the document holds a lone surrogate: then the write raises and
    leaves the file empty. *)
Theorem main_writes_whatever_side_fetches_do fuel w cfg repos :
  config_file w = Mapping cfg ->
  truthy (username_of w cfg) = true ->
  printable (username_of w cfg) = true ->
  printable (get cfg (lit "display_name")) = true ->
  Quote.no_surrogate (py_str (username_of w cfg)) = true ->
  fetch_repos (repos_net w) fuel (username_of w cfg) = Some (Ok repos) ->
  is_str (get cfg (lit "linkedin_url")) = true ->
  str_or_falsy cfg (lit "bio_code") = true ->
  str_or_absent cfg (lit "external_gif_url") = true ->
  str_or_absent cfg (lit "gif_path") = true ->
  str_or_absent cfg (lit "branch_name") = true ->
  exists lang_section_md visitor_badge gif_url readme_md,
    build_language_section
      (fetch_languages_for_repos (languages_net w) repos)
    = Ok lang_section_md
    /\ build_visitor_badge (username_of w cfg) = Some visitor_badge
    /\ find_gif_url (root_dir w) (file_exists w) cfg (username_of w cfg)
       = Ok gif_url
    /\ build_readme
         (readme_cfg cfg (username_of w cfg) visitor_badge gif_url)
         (stats_img_urls_of (username_of w cfg))
         lang_section_md
         (fetch_recent_commits (events_net w) (username_of w cfg) 5)
         (clock w)
       = Ok readme_md
    /\ main fuel w
       = Some (if Quote.no_surrogate readme_md
               then Written readme_md else WriteFailed).
Proof.
  intros Hc Hu _ _ Hs Hr Hl Hb Hge Hgp Hgb.
  destruct (language_section_returns
              (fetch_languages_for_repos (languages_net w) repos))
    as [lang Hlang].
  destruct (build_visitor_badge_returns _ Hs) as [enc [Hbadge _]].
  destruct (find_gif_url_returns (root_dir w) (file_exists w) cfg
              (username_of w cfg) Hge Hgp Hgb) as [gif Hgif].
  pose proof (readme_cfg_typed cfg (username_of w cfg)
                (BADGE_PREFIX ++ enc)%list gif
                (stats_img_urls_of (username_of w cfg)) lang
                (fetch_recent_commits (events_net w) (username_of w cfg) 5)
                (clock w) Hl Hb) as Hdoc.
  eexists lang, (BADGE_PREFIX ++ enc)%list, gif, _.
  split; [exact Hlang|]. split; [exact Hbadge|]. split; [exact Hgif|].
  split; [exact Hdoc|].
  rewrite (main_with_config fuel w cfg Hc Hu), Hr. cbn [lift].
  rewrite Hlang. cbn [lift]. rewrite Hbadge, Hgif. cbn [lift].
  rewrite Hdoc. reflexivity.
Qed.

Lemma main_writes_whatever_side_fetches_do_witness :
  exists lang_section_md visitor_badge gif_url readme_md,
    build_language_section
      (fetch_languages_for_repos (languages_net Worlds.degraded)
         (Worlds.hundred_repos ++ Worlds.last_repos))
    = Ok lang_section_md
    /\ build_visitor_badge (username_of Worlds.degraded Samples.full_cfg)
       = Some visitor_badge
    /\ find_gif_url (root_dir Worlds.degraded) (file_exists Worlds.degraded)
         Samples.full_cfg (username_of Worlds.degraded Samples.full_cfg)
       = Ok gif_url
    /\ build_readme
         (readme_cfg Samples.full_cfg
            (username_of Worlds.degraded Samples.full_cfg)
            visitor_badge gif_url)
         (stats_img_urls_of (username_of Worlds.degraded Samples.full_cfg))
         lang_section_md
         (fetch_recent_commits (events_net Worlds.degraded)
            (username_of Worlds.degraded Samples.full_cfg) 5)
         (clock Worlds.degraded)
       = Ok readme_md
    /\ main 2 Worlds.degraded
       = Some (if Quote.no_surrogate readme_md
               then Written readme_md else WriteFailed).
Proof.
  apply (main_writes_whatever_side_fetches_do 2 Worlds.degraded
           Samples.full_cfg (Worlds.hundred_repos ++ Worlds.last_repos));
    reflexivity.
Defined.
